(** * Customer list read model: a shallow embedding and its properties

    The development follows [src/domain/readModels/CustomerListReadModel.js].
    JavaScript statements become computations of a small state-and-exception
    monad over a [World] that holds what the factory's three collaborators
    (bus, repository, adapter) hold.  The collaborators themselves are not part
    of the read model's source; they are modelled from their documented
    contract and every such definition says so. *)

From Stdlib Require Import ZArith.
From stdpp Require Import gmap strings list fin_maps.

Open Scope string_scope.
Open Scope list_scope.

(** ** JavaScript data *)

(** The values an event field can hold.  A field that a command did not set
    reads as [Undefined]. *)
Inductive value :=
| Undefined
| Str (s : string)
| Num (n : Z).

(** The object passed to [onEvent]: the tag [__name] and the fields the read
    model reads from it. *)
Module event.
Record t := make {
  __name : string;
  customerId : string;
  name : value;
  email : value;
  password : value }.
End event.

(** The object literal stored by [onCustomerCreatedEvent]:
    [{ name, email, password, active }]. *)
Module customer.
Record t := make {
  name : value;
  email : value;
  password : value;
  active : Z }.

(** [customer.name = v] *)
Definition set_name (v : value) (c : t) : t :=
  make v (email c) (password c) (active c).

(** [customer.active = n] *)
Definition set_active (n : Z) (c : t) : t :=
  make (name c) (email c) (password c) n.
End customer.

(** Every [throw] of the source is [throw new Error(message)]. *)
Inductive exn := Error (message : string).

(** [error.toString()] of a plain [Error]: the name alone when the message
    is empty, otherwise the name, a colon and the message. *)
Definition toString (e : exn) : string :=
  match e with
  | Error m => if String.eqb m "" then "Error" else String.append "Error: " m
  end.

(** ** Constants *)

(** Modelled from the spec: [../constants/events] is not among the sources;
    the spec names the stored creation event "CUSTOMER_CREATED", and the other
    tags are taken to be their own names in the same way. *)
Definition CUSTOMER_CREATED : string := "CUSTOMER_CREATED".
Definition CUSTOMER_UPDATED : string := "CUSTOMER_UPDATED".
Definition CUSTOMER_DEACTIVATED : string := "CUSTOMER_DEACTIVATED".
Definition CUSTOMER_REACTIVATED : string := "CUSTOMER_REACTIVATED".
Definition CUSTOMER_REGISTERED : string := "CUSTOMER_REGISTERED".

(** Modelled from the spec: [../constants/collections] is not among the
    sources.  Only the name of the collection matters; no result below depends
    on the string chosen here. *)
Definition CUSTOMERS : string := "customers".

(** ** The world of the factory's collaborators *)

(** The one listener this read model registers on the bus. *)
Inductive listener := CustomerListReadModel_onEvent.

(** Calls received by the collaborators, in the order they were made.  This is
    a record of what happened, never read by the program. *)
Inductive call :=
| AdapterGet (collection id : string)
| AdapterInsert (collection id : string) (record : customer.t)
| AdapterUpdate (collection id : string) (record : customer.t)
| BusOn (channel : string) (l : listener)
| Invoke (l : listener) (e : event.t).

Record World := mkWorld {
  data : gmap (string * string) customer.t;  (* adapter: (collection, id) -> record *)
  listeners : list (string * listener);      (* bus: subscriptions, oldest first *)
  store : list event.t;                      (* repository.store, oldest first *)
  calls : list call }.

Definition fresh : World := mkWorld ∅ [] [] [].

Definition with_data (d : gmap (string * string) customer.t) (w : World) : World :=
  mkWorld d (listeners w) (store w) (calls w).

Definition with_listeners (ls : list (string * listener)) (w : World) : World :=
  mkWorld (data w) ls (store w) (calls w).

Definition with_store (s : list event.t) (w : World) : World :=
  mkWorld (data w) (listeners w) s (calls w).

Definition record_call (c : call) (w : World) : World :=
  mkWorld (data w) (listeners w) (store w) (calls w ++ [c]).

(** ** Statements: state and exceptions *)

Inductive completion (A : Type) :=
| Normal (a : A)
| Throw (e : exn).
Arguments Normal {A} a.
Arguments Throw {A} e.

(** A statement runs in a world and completes normally or abruptly; the
    effects made before a [throw] stay. *)
Definition M (A : Type) : Type := World -> completion A * World.

Definition ret {A} (a : A) : M A := fun w => (Normal a, w).

Definition throw {A} (e : exn) : M A := fun w => (Throw e, w).

Definition bind {A B} (m : M A) (k : A -> M B) : M B :=
  fun w =>
    match m w with
    | (Normal a, w') => k a w'
    | (Throw e, w') => (Throw e, w')
    end.

Notation "x <- m ;; k" := (bind m (fun x => k))
  (at level 100, m at next level, right associativity).
Notation "m ;;; k" := (bind m (fun _ => k))
  (at level 100, right associativity).

(** [try { m } catch (error) { }]: the outcome is handed to the caller as a
    value and execution goes on. *)
Definition attempt {A} (m : M A) : M (completion A) :=
  fun w => let '(r, w') := m w in (Normal r, w').

(** ** The persistence adapter *)

(** Modelled from the spec: the adapter is a collaborator with the contract
    [get(collection, id) -> record | absent],
    [insert(collection, id, record) -> void],
    [update(collection, id, record) -> void] over a key/value store.  Both
    writes store the record under the key.  The read model calls [insert] only
    for an absent key and [update] only for a present one. *)
Module adapter.
(** Modelled from the spec: [get(collection, id) -> record | absent]. *)
Definition get (collection id : string) : M (option customer.t) :=
  fun w => (Normal (data w !! (collection, id)),
            record_call (AdapterGet collection id) w).

(** Modelled from the spec: [insert(collection, id, record) -> void]. *)
Definition insert (collection id : string) (record : customer.t) : M unit :=
  fun w => (Normal tt,
            record_call (AdapterInsert collection id record)
              (with_data (<[(collection, id) := record]> (data w)) w)).

(** Modelled from the spec: [update(collection, id, record) -> void]. *)
Definition update (collection id : string) (record : customer.t) : M unit :=
  fun w => (Normal tt,
            record_call (AdapterUpdate collection id record)
              (with_data (<[(collection, id) := record]> (data w)) w)).
End adapter.

(** ** The read model *)

(** [function onCustomerCreatedEvent (event)].  A stored record is an object,
    hence truthy; an absent one is falsy. *)
Definition onCustomerCreatedEvent (e : event.t) : M unit :=
  found <- adapter.get CUSTOMERS (event.customerId e) ;;
  match found with
  | Some _ => throw (Error "Customer already exists")
  | None =>
      adapter.insert CUSTOMERS (event.customerId e)
        (customer.make (event.name e) (event.email e) (event.password e) 1)
  end.

(** [function onCustomerUpdatedEvent (event)].  The assignment
    [customer.name = event.name] acts on the object that [get] returned;
    whether the adapter hands out its stored object or a copy, the record
    under the key once [update] has returned is the same, and the assignment
    comes after the check that throws. *)
Definition onCustomerUpdatedEvent (e : event.t) : M unit :=
  found <- adapter.get CUSTOMERS (event.customerId e) ;;
  match found with
  | None => throw (Error "Customer not found")
  | Some c =>
      let c := customer.set_name (event.name e) c in
      adapter.update CUSTOMERS (event.customerId e) c
  end.

(** [function onCustomerDeactivatedEvent (event)] *)
Definition onCustomerDeactivatedEvent (e : event.t) : M unit :=
  found <- adapter.get CUSTOMERS (event.customerId e) ;;
  match found with
  | None => throw (Error "Customer not found")
  | Some c =>
      let c := customer.set_active 0 c in
      adapter.update CUSTOMERS (event.customerId e) c
  end.

(** [function onCustomerReactivatedEvent (event)] *)
Definition onCustomerReactivatedEvent (e : event.t) : M unit :=
  found <- adapter.get CUSTOMERS (event.customerId e) ;;
  match found with
  | None => throw (Error "Customer not found")
  | Some c =>
      let c := customer.set_active 1 c in
      adapter.update CUSTOMERS (event.customerId e) c
  end.

(** [function onEvent (event)]: a [switch] on [event.__name] whose cases all
    return; with no matching case the function returns [undefined]. *)
Definition onEvent (e : event.t) : M unit :=
  if String.eqb (event.__name e) CUSTOMER_CREATED then onCustomerCreatedEvent e
  else if String.eqb (event.__name e) CUSTOMER_UPDATED then onCustomerUpdatedEvent e
  else if String.eqb (event.__name e) CUSTOMER_DEACTIVATED then onCustomerDeactivatedEvent e
  else if String.eqb (event.__name e) CUSTOMER_REACTIVATED then onCustomerReactivatedEvent e
  else ret tt.

(** The function behind a registered listener. *)
Definition run_listener (l : listener) : event.t -> M unit :=
  match l with CustomerListReadModel_onEvent => onEvent end.

(** [array.forEach(f)]: calls [f] on the elements in order; an exception
    thrown by [f] ends the iteration and propagates. *)
Fixpoint forEach (l : listener) (es : list event.t) : M unit :=
  match es with
  | [] => ret tt
  | e :: es' =>
      (fun w => run_listener l e (record_call (Invoke l e) w)) ;;;
      forEach l es'
  end.

(** Modelled from the spec: the event bus is a collaborator.  [bus.on]
    registers a listener for a channel after those already there;
    [bus.emit] invokes the channel's listeners in registration order,
    synchronously, and a listener's exception propagates to the publisher. *)
Module bus.
(** Modelled from the spec: [subscribe(handler)], here [bus.on(channel, l)]. *)
Definition on (channel : string) (l : listener) : M unit :=
  fun w => (Normal tt,
            record_call (BusOn channel l)
              (with_listeners (listeners w ++ [(channel, l)]) w)).

(** Modelled from the spec: the fan-out of [publish(event)] over the
    registered listeners, in subscription order. *)
Fixpoint notify (ls : list (string * listener)) (channel : string)
    (e : event.t) : M unit :=
  match ls with
  | [] => ret tt
  | (ch, l) :: ls' =>
      (if String.eqb ch channel
       then fun w => run_listener l e (record_call (Invoke l e) w)
       else ret tt) ;;;
      notify ls' channel e
  end.

(** Modelled from the spec: [publish(event)], here [bus.emit(channel, e)]. *)
Definition emit (channel : string) (e : event.t) : M unit :=
  fun w => notify (listeners w) channel e w.
End bus.

(** [function CustomerListReadModel (bus, repository, adapter)]: the body
    after the function declarations is [bus.on('event', onEvent)] followed by
    [repository.store.forEach(onEvent)]. *)
Definition CustomerListReadModel : M unit :=
  bus.on "event" CustomerListReadModel_onEvent ;;;
  (fun w => forEach CustomerListReadModel_onEvent (store w) w).

(** [es.forEach(e => { try { onEvent(e) } catch (error) { } })] seen from the
    projection: every event is handed to the handler on its own, as a live
    publish does, and an exception ends the handling of that event only.  The
    outcomes are returned in order. *)
Fixpoint feed_each (es : list event.t) : M (list (completion unit)) :=
  match es with
  | [] => ret []
  | e :: es' =>
      r <- attempt (onEvent e) ;;
      rs <- feed_each es' ;;
      ret (r :: rs)
  end.

(** ** The write side *)

(** Modelled from the spec: the command objects, the event store, the
    repository and the command handler are not among the sources (only the
    handler's test is).  What follows is the create path as the spec words it:
    a command [{type, aggregateId, ...fields}]; [loadHistory] filters the
    store by aggregate id; the aggregate is the fold of its history from a
    nonexistent state; "create" requires the nonexistent state and otherwise
    fails with the message the test expects, appending nothing; [append]
    stores the event and then publishes it on the bus before it returns;
    [handle] dispatches on the command type and fails on an unknown one. *)
Module command.
(** Modelled from the spec: a command [{type, aggregateId, ...fields}]. *)
Record t := make {
  type : string;
  aggregateId : string;
  name : value }.
End command.

(** Modelled from the spec: the type tag of the "create" command. *)
Definition CREATE_CUSTOMER : string := "CREATE_CUSTOMER".

(** Modelled from the spec: [CreateCustomer(id, name)] of the test. *)
Definition CreateCustomer (customerId name : string) : command.t :=
  command.make CREATE_CUSTOMER customerId (Str name).

Module EventStore.
(** Modelled from the spec: [append(event)] stores the event, then publishes
    exactly this event on the bus before it returns. *)
Definition append (e : event.t) : M unit :=
  (fun w => (Normal tt, with_store (store w ++ [e]) w)) ;;;
  bus.emit "event" e.

(** Modelled from the spec: [loadHistory(aggregateId)], the events of that
    aggregate, oldest first. *)
Definition loadHistory (aggregateId : string) : M (list event.t) :=
  fun w =>
    (Normal (filter (fun e => event.customerId e = aggregateId) (store w)), w).
End EventStore.

Module Customer.
(** Modelled from the spec: the aggregate's state, starting nonexistent. *)
Inductive state :=
| Nonexistent
| Existing (name : value) (active : bool).

(** Modelled from the spec: the reducer [apply(state, event) -> state]. *)
Definition apply (s : state) (e : event.t) : state :=
  if String.eqb (event.__name e) CUSTOMER_CREATED then Existing (event.name e) true
  else match s with
       | Nonexistent => Nonexistent
       | Existing n a =>
           if String.eqb (event.__name e) CUSTOMER_UPDATED then Existing (event.name e) a
           else if String.eqb (event.__name e) CUSTOMER_DEACTIVATED then Existing n false
           else if String.eqb (event.__name e) CUSTOMER_REACTIVATED then Existing n true
           else s
       end.

(** Modelled from the spec: [load(aggregateId)] folds the history. *)
Definition load (aggregateId : string) : M state :=
  history <- EventStore.loadHistory aggregateId ;;
  ret (fold_left apply history Nonexistent).

(** Modelled from the spec: "create" requires the nonexistent state; a
    violated rule appends no event. *)
Definition create (c : command.t) : M unit :=
  s <- load (command.aggregateId c) ;;
  match s with
  | Existing _ _ => throw (Error "can not create same customer more than once")
  | Nonexistent =>
      EventStore.append
        (event.make CUSTOMER_CREATED (command.aggregateId c) (command.name c)
           Undefined Undefined)
  end.
End Customer.

Module CustomerCommandHandler.
(** Modelled from the spec: [handle(command)] dispatches on the command type;
    an unknown type fails.  The spec gives that failure a kind and no
    message. *)
Definition handle (c : command.t) : M unit :=
  if String.eqb (command.type c) CREATE_CUSTOMER then Customer.create c
  else throw (Error "UnsupportedCommand").
End CustomerCommandHandler.

(** The values of [CustomerCommandHandler.test.js]. *)
Definition CUSTOMER_1_ID : string := "1234-5678-9012-3456".
Definition CUSTOMER_1_NAME : string := "Test Customer".
Definition createCustomerCommand : command.t :=
  CreateCustomer CUSTOMER_1_ID CUSTOMER_1_NAME.

(** ** Notions used to state and prove the properties *)

(** The key under which an event's customer is kept. *)
Definition key (e : event.t) : string * string := (CUSTOMERS, event.customerId e).

(** The world after the handler's [adapter.get]. *)
Definition looked_up (e : event.t) (w : World) : World :=
  record_call (AdapterGet CUSTOMERS (event.customerId e)) w.

(** The world after a write of [r] that follows the look-up. *)
Definition written (c : call) (e : event.t) (r : customer.t) (w : World) : World :=
  record_call c (with_data (<[key e := r]> (data w)) (looked_up e w)).

(** Sample events. *)
Definition created_1 : event.t :=
  event.make CUSTOMER_CREATED CUSTOMER_1_ID (Str CUSTOMER_1_NAME) Undefined Undefined.
Definition updated_1 : event.t :=
  event.make CUSTOMER_UPDATED CUSTOMER_1_ID (Str "Renamed Customer") Undefined Undefined.
Definition deactivated_1 : event.t :=
  event.make CUSTOMER_DEACTIVATED CUSTOMER_1_ID Undefined Undefined Undefined.
Definition reactivated_1 : event.t :=
  event.make CUSTOMER_REACTIVATED CUSTOMER_1_ID Undefined Undefined Undefined.
Definition registered_1 : event.t :=
  event.make CUSTOMER_REGISTERED CUSTOMER_1_ID (Str CUSTOMER_1_NAME)
    (Str "test@example.com") (Str "secret").
Definition created_2 : event.t :=
  event.make CUSTOMER_CREATED "2" (Str "Second Customer") Undefined Undefined.

(** The world reached from [w] by a statement, and its completion. *)
Definition after {A} (m : M A) (w : World) : World := snd (m w).
Definition completes {A} (m : M A) (w : World) : completion A := fst (m w).

(** What a handler does as a function of the record it finds: how it
    completes and which record, if any, it writes under the event's key. *)
Definition verdict (e : event.t) (o : option customer.t)
    : completion unit * option customer.t :=
  if String.eqb (event.__name e) CUSTOMER_CREATED then
    match o with
    | Some _ => (Throw (Error "Customer already exists"), None)
    | None => (Normal tt,
               Some (customer.make (event.name e) (event.email e) (event.password e) 1))
    end
  else if String.eqb (event.__name e) CUSTOMER_UPDATED then
    match o with
    | None => (Throw (Error "Customer not found"), None)
    | Some c => (Normal tt, Some (customer.set_name (event.name e) c))
    end
  else if String.eqb (event.__name e) CUSTOMER_DEACTIVATED then
    match o with
    | None => (Throw (Error "Customer not found"), None)
    | Some c => (Normal tt, Some (customer.set_active 0 c))
    end
  else if String.eqb (event.__name e) CUSTOMER_REACTIVATED then
    match o with
    | None => (Throw (Error "Customer not found"), None)
    | Some c => (Normal tt, Some (customer.set_active 1 c))
    end
  else (Normal tt, None).

(** The record under key [k] after an event, given the record before. *)
Definition step (k : string * string) (o : option customer.t) (e : event.t)
    : option customer.t :=
  if decide (key e = k)
  then match snd (verdict e o) with Some r => Some r | None => o end
  else o.

(** The events of [es] are all accepted as far as key [k] is concerned, when
    the record under [k] starts as [o]. *)
Fixpoint accepted (k : string * string) (o : option customer.t)
    (es : list event.t) : Prop :=
  match es with
  | [] => True
  | e :: es' =>
      (key e = k -> fst (verdict e o) = Normal tt) /\ accepted k (step k o e) es'
  end.

(** Calls made to the adapter. *)
Definition adapter_call (c : call) : Prop :=
  match c with
  | AdapterGet _ _ | AdapterInsert _ _ _ | AdapterUpdate _ _ _ => True
  | BusOn _ _ | Invoke _ _ => False
  end.

(** The events handed to a listener, in order, according to the calls. *)
Fixpoint invocations (cs : list call) : list event.t :=
  match cs with
  | [] => []
  | Invoke _ e :: cs' => e :: invocations cs'
  | _ :: cs' => invocations cs'
  end.

(** The subscriptions recorded in the calls. *)
Fixpoint subscriptions (cs : list call) : list (string * listener) :=
  match cs with
  | [] => []
  | BusOn ch l :: cs' => (ch, l) :: subscriptions cs'
  | _ :: cs' => subscriptions cs'
  end.

(** On a record that is there, a rejected creation and an accepted one of the
    other events have the same form: both are functions of the record. *)
Definition amend (k : string * string) (c : customer.t) (e : event.t) : customer.t :=
  if decide (key e = k) then
    if String.eqb (event.__name e) CUSTOMER_CREATED then c
    else if String.eqb (event.__name e) CUSTOMER_UPDATED
      then customer.set_name (event.name e) c
    else if String.eqb (event.__name e) CUSTOMER_DEACTIVATED
      then customer.set_active 0 c
    else if String.eqb (event.__name e) CUSTOMER_REACTIVATED
      then customer.set_active 1 c
    else c
  else c.

(** The name and the flag an event assigns to the record under [k]. *)
Definition new_name (k : string * string) (e : event.t) : option value :=
  if decide (key e = k) then
    if String.eqb (event.__name e) CUSTOMER_CREATED then None
    else if String.eqb (event.__name e) CUSTOMER_UPDATED then Some (event.name e)
    else None
  else None.

Definition new_active (k : string * string) (e : event.t) : option Z :=
  if decide (key e = k) then
    if String.eqb (event.__name e) CUSTOMER_CREATED then None
    else if String.eqb (event.__name e) CUSTOMER_UPDATED then None
    else if String.eqb (event.__name e) CUSTOMER_DEACTIVATED then Some 0%Z
    else if String.eqb (event.__name e) CUSTOMER_REACTIVATED then Some 1%Z
    else None
  else None.

(** The last assignment wins. *)
Definition overwrite {A B} (f : B -> option A) (es : list B) (d : A) : A :=
  fold_left (fun d e => default d (f e)) es d.

(** A world in which the first sample customer has a record. *)
Definition with_customer_1 : World := after (onEvent created_1) fresh.

(** A sample history, split in two. *)
Definition history_pre : list event.t := [created_1; updated_1].
Definition history_tail : list event.t := [deactivated_1; created_2; reactivated_1].
Definition replayed : World :=
  after (forEach CustomerListReadModel_onEvent (history_pre ++ history_tail)) fresh.

(** More sample events and worlds. *)
Definition renamed_again_1 : event.t :=
  event.make CUSTOMER_UPDATED CUSTOMER_1_ID (Str "Renamed Again")
    (Str "ignored@example.com") (Str "ignored").
Definition updated_2 : event.t :=
  event.make CUSTOMER_UPDATED "2" (Str "Second Renamed") Undefined Undefined.
Definition deactivated_noisy_1 : event.t :=
  event.make CUSTOMER_DEACTIVATED CUSTOMER_1_ID (Str "noise") (Str "noise") (Str "noise").
Definition with_two_customers : World := after (onEvent created_2) with_customer_1.


(** Every record's flag is one of the two numbers the handlers assign. *)
Definition binary_flags (m : gmap (string * string) customer.t) : Prop :=
  forall k c, m !! k = Some c -> customer.active c = 0%Z \/ customer.active c = 1%Z.

(** The number of creation events in a list. *)
Definition creations (es : list event.t) : nat :=
  length (filter (fun e => event.__name e = CUSTOMER_CREATED) es).

(** * Properties *)

(** ** How [onEvent] dispatches *)

Ltac tag H := unfold onEvent; rewrite H; simpl.

Lemma onEvent_created e :
  event.__name e = CUSTOMER_CREATED -> onEvent e = onCustomerCreatedEvent e.
Proof. intros H. now tag H. Qed.

Lemma onEvent_updated e :
  event.__name e = CUSTOMER_UPDATED -> onEvent e = onCustomerUpdatedEvent e.
Proof. intros H. now tag H. Qed.

Lemma onEvent_deactivated e :
  event.__name e = CUSTOMER_DEACTIVATED -> onEvent e = onCustomerDeactivatedEvent e.
Proof. intros H. now tag H. Qed.

Lemma onEvent_reactivated e :
  event.__name e = CUSTOMER_REACTIVATED -> onEvent e = onCustomerReactivatedEvent e.
Proof. intros H. now tag H. Qed.

Lemma onEvent_unhandled e :
  event.__name e <> CUSTOMER_CREATED ->
  event.__name e <> CUSTOMER_UPDATED ->
  event.__name e <> CUSTOMER_DEACTIVATED ->
  event.__name e <> CUSTOMER_REACTIVATED ->
  onEvent e = ret tt.
Proof.
  intros Hc Hu Hd Hr. unfold onEvent.
  apply String.eqb_neq in Hc, Hu, Hd, Hr.
  now rewrite Hc, Hu, Hd, Hr.
Qed.

(** ** One handler, one world *)

Ltac run_handler H :=
  unfold onCustomerCreatedEvent, onCustomerUpdatedEvent,
    onCustomerDeactivatedEvent, onCustomerReactivatedEvent,
    bind, adapter.get, key in *;
  simpl; rewrite H; reflexivity.

Lemma created_absent e w :
  data w !! key e = None ->
  onCustomerCreatedEvent e w =
    (Normal tt,
     let r := customer.make (event.name e) (event.email e) (event.password e) 1 in
     written (AdapterInsert CUSTOMERS (event.customerId e) r) e r w).
Proof. intros H. run_handler H. Qed.

Lemma created_present e w c :
  data w !! key e = Some c ->
  onCustomerCreatedEvent e w =
    (Throw (Error "Customer already exists"), looked_up e w).
Proof. intros H. run_handler H. Qed.

Lemma updated_absent e w :
  data w !! key e = None ->
  onCustomerUpdatedEvent e w = (Throw (Error "Customer not found"), looked_up e w).
Proof. intros H. run_handler H. Qed.

Lemma updated_present e w c :
  data w !! key e = Some c ->
  onCustomerUpdatedEvent e w =
    (Normal tt,
     let r := customer.set_name (event.name e) c in
     written (AdapterUpdate CUSTOMERS (event.customerId e) r) e r w).
Proof. intros H. run_handler H. Qed.

Lemma deactivated_absent e w :
  data w !! key e = None ->
  onCustomerDeactivatedEvent e w = (Throw (Error "Customer not found"), looked_up e w).
Proof. intros H. run_handler H. Qed.

Lemma deactivated_present e w c :
  data w !! key e = Some c ->
  onCustomerDeactivatedEvent e w =
    (Normal tt,
     let r := customer.set_active 0 c in
     written (AdapterUpdate CUSTOMERS (event.customerId e) r) e r w).
Proof. intros H. run_handler H. Qed.

Lemma reactivated_absent e w :
  data w !! key e = None ->
  onCustomerReactivatedEvent e w = (Throw (Error "Customer not found"), looked_up e w).
Proof. intros H. run_handler H. Qed.

Lemma reactivated_present e w c :
  data w !! key e = Some c ->
  onCustomerReactivatedEvent e w =
    (Normal tt,
     let r := customer.set_active 1 c in
     written (AdapterUpdate CUSTOMERS (event.customerId e) r) e r w).
Proof. intros H. run_handler H. Qed.

Lemma data_written c e r w : data (written c e r w) = <[key e := r]> (data w).
Proof. reflexivity. Qed.

Lemma calls_written c e r w :
  calls (written c e r w) =
    calls w ++ [AdapterGet CUSTOMERS (event.customerId e); c].
Proof. unfold written, looked_up. simpl. now rewrite <- app_assoc. Qed.

(** ** The four handlers *)

(** C1.  A CUSTOMER_CREATED event whose customer has no record makes the
    handler return normally after one [get] and one [insert]: the new record
    carries the event's name, email and password and [active = 1], the
    collection grows by exactly that record and every other key is as before.
    When a record is already there the handler throws
    [Error('Customer already exists')] after the [get] alone and the data is
    as before. *)
Theorem created_inserts_or_rejects (e : event.t) (w : World) :
  event.__name e = CUSTOMER_CREATED ->
  (data w !! (CUSTOMERS, event.customerId e) = None ->
   exists w',
     onEvent e w = (Normal tt, w') /\
     data w' !! (CUSTOMERS, event.customerId e) =
       Some (customer.make (event.name e) (event.email e) (event.password e) 1) /\
     (forall k, k <> (CUSTOMERS, event.customerId e) -> data w' !! k = data w !! k) /\
     size (data w') = S (size (data w)) /\
     calls w' = calls w ++
       [AdapterGet CUSTOMERS (event.customerId e);
        AdapterInsert CUSTOMERS (event.customerId e)
          (customer.make (event.name e) (event.email e) (event.password e) 1)]) /\
  (is_Some (data w !! (CUSTOMERS, event.customerId e)) ->
   exists w',
     onEvent e w = (Throw (Error "Customer already exists"), w') /\
     data w' = data w /\
     calls w' = calls w ++ [AdapterGet CUSTOMERS (event.customerId e)]).
Proof.
  intros Hn. rewrite (onEvent_created e Hn). split.
  - intros Habs. eexists. split; [apply created_absent, Habs|].
    cbv zeta. rewrite data_written, calls_written. unfold key.
    repeat split.
    + apply lookup_insert_eq.
    + intros k Hk. now apply lookup_insert_ne.
    + now apply map_size_insert_None.
  - intros [c Hc]. eexists. split; [eapply created_present, Hc|]. now split.
Qed.

(** C2.  A CUSTOMER_UPDATED, CUSTOMER_DEACTIVATED or CUSTOMER_REACTIVATED
    event whose customer has no record makes the handler throw
    [Error('Customer not found')]; the only adapter call is the [get], and the
    data, hence the absence of that record, is as before. *)
Theorem missing_record_rejected (e : event.t) (w : World) :
  event.__name e = CUSTOMER_UPDATED \/
  event.__name e = CUSTOMER_DEACTIVATED \/
  event.__name e = CUSTOMER_REACTIVATED ->
  data w !! (CUSTOMERS, event.customerId e) = None ->
  exists w',
    onEvent e w = (Throw (Error "Customer not found"), w') /\
    data w' = data w /\
    data w' !! (CUSTOMERS, event.customerId e) = None /\
    calls w' = calls w ++ [AdapterGet CUSTOMERS (event.customerId e)].
Proof.
  intros Hn Habs. exists (looked_up e w).
  destruct Hn as [Hn | [Hn | Hn]].
  - rewrite (onEvent_updated e Hn). split; [now apply updated_absent | easy].
  - rewrite (onEvent_deactivated e Hn). split; [now apply deactivated_absent | easy].
  - rewrite (onEvent_reactivated e Hn). split; [now apply reactivated_absent | easy].
Qed.

(** C5.  A CUSTOMER_UPDATED event whose customer has a record returns
    normally; afterwards that record has the event's name and the email,
    password and active flag it had, and every other key holds what it
    held. *)
Theorem updated_changes_name_only (e : event.t) (w : World) (c : customer.t) :
  event.__name e = CUSTOMER_UPDATED ->
  data w !! (CUSTOMERS, event.customerId e) = Some c ->
  exists w' c',
    onEvent e w = (Normal tt, w') /\
    data w' !! (CUSTOMERS, event.customerId e) = Some c' /\
    customer.name c' = event.name e /\
    customer.email c' = customer.email c /\
    customer.password c' = customer.password c /\
    customer.active c' = customer.active c /\
    (forall k, k <> (CUSTOMERS, event.customerId e) -> data w' !! k = data w !! k).
Proof.
  intros Hn Hc. rewrite (onEvent_updated e Hn).
  eexists. eexists. split; [eapply updated_present, Hc|].
  cbv zeta. rewrite data_written. unfold key. split; [apply lookup_insert_eq|].
  repeat split. intros k Hk. now apply lookup_insert_ne.
Qed.

(** C6.  With a record present, CUSTOMER_DEACTIVATED leaves it with
    [active = 0] and CUSTOMER_REACTIVATED with [active = 1]; name, email and
    password stay, and so does every other key. *)
Theorem activation_sets_flag_only (e : event.t) (w : World) (c : customer.t) :
  data w !! (CUSTOMERS, event.customerId e) = Some c ->
  (event.__name e = CUSTOMER_DEACTIVATED ->
   exists w',
     onEvent e w = (Normal tt, w') /\
     data w' !! (CUSTOMERS, event.customerId e) =
       Some (customer.make (customer.name c) (customer.email c) (customer.password c) 0) /\
     (forall k, k <> (CUSTOMERS, event.customerId e) -> data w' !! k = data w !! k)) /\
  (event.__name e = CUSTOMER_REACTIVATED ->
   exists w',
     onEvent e w = (Normal tt, w') /\
     data w' !! (CUSTOMERS, event.customerId e) =
       Some (customer.make (customer.name c) (customer.email c) (customer.password c) 1) /\
     (forall k, k <> (CUSTOMERS, event.customerId e) -> data w' !! k = data w !! k)).
Proof.
  intros Hc. split; intros Hn.
  - rewrite (onEvent_deactivated e Hn).
    eexists. split; [eapply deactivated_present, Hc|].
    cbv zeta. rewrite data_written. unfold key. split; [apply lookup_insert_eq|].
    intros k Hk. now apply lookup_insert_ne.
  - rewrite (onEvent_reactivated e Hn).
    eexists. split; [eapply reactivated_present, Hc|].
    cbv zeta. rewrite data_written. unfold key. split; [apply lookup_insert_eq|].
    intros k Hk. now apply lookup_insert_ne.
Qed.

(** C7.  An event whose tag is none of the four handled ones, CUSTOMER_REGISTERED
    among them, makes [onEvent] return normally in the very world it started
    in: no adapter call is recorded and the data is the same. *)
Theorem unhandled_event_ignored (e : event.t) (w : World) :
  (event.__name e <> CUSTOMER_CREATED /\
   event.__name e <> CUSTOMER_UPDATED /\
   event.__name e <> CUSTOMER_DEACTIVATED /\
   event.__name e <> CUSTOMER_REACTIVATED) \/
  event.__name e = CUSTOMER_REGISTERED ->
  onEvent e w = (Normal tt, w).
Proof.
  intros [(Hc & Hu & Hd & Hr) | Hreg].
  - now rewrite onEvent_unhandled.
  - unfold onEvent. now rewrite Hreg.
Qed.

(** C10.  Whenever [onEvent] throws, the world it leaves differs from the one
    it started in by the record of a single [adapter.get]: no [insert] and no
    [update] was issued and the data is as before.  The throw is either
    'Customer already exists' for a creation whose record is present or
    'Customer not found' for one of the other three whose record is absent. *)
Theorem failure_is_atomic (e : event.t) (w w' : World) (x : exn) :
  onEvent e w = (Throw x, w') ->
  w' = record_call (AdapterGet CUSTOMERS (event.customerId e)) w /\
  data w' = data w /\
  (forall c, In c (calls w') -> In c (calls w) \/
     c = AdapterGet CUSTOMERS (event.customerId e)) /\
  ((x = Error "Customer already exists" /\
    event.__name e = CUSTOMER_CREATED /\
    is_Some (data w !! (CUSTOMERS, event.customerId e))) \/
   (x = Error "Customer not found" /\
    (event.__name e = CUSTOMER_UPDATED \/
     event.__name e = CUSTOMER_DEACTIVATED \/
     event.__name e = CUSTOMER_REACTIVATED) /\
    data w !! (CUSTOMERS, event.customerId e) = None)).
Proof.
  intros Hrun.
  assert (Hgoal :
    w' = looked_up e w /\
    ((x = Error "Customer already exists" /\
      event.__name e = CUSTOMER_CREATED /\
      is_Some (data w !! key e)) \/
     (x = Error "Customer not found" /\
      (event.__name e = CUSTOMER_UPDATED \/
       event.__name e = CUSTOMER_DEACTIVATED \/
       event.__name e = CUSTOMER_REACTIVATED) /\
      data w !! key e = None))).
  { destruct (String.eqb_spec (event.__name e) CUSTOMER_CREATED) as [Hc|Hc];
      [rewrite (onEvent_created e Hc) in Hrun|].
    { destruct (data w !! key e) as [c|] eqn:Hk.
      - rewrite (created_present e w c Hk) in Hrun. inversion Hrun. eauto 6.
      - rewrite (created_absent e w Hk) in Hrun. discriminate. }
    destruct (String.eqb_spec (event.__name e) CUSTOMER_UPDATED) as [Hu|Hu];
      [rewrite (onEvent_updated e Hu) in Hrun|].
    { destruct (data w !! key e) as [c|] eqn:Hk.
      - rewrite (updated_present e w c Hk) in Hrun. discriminate.
      - rewrite (updated_absent e w Hk) in Hrun. inversion Hrun. eauto 7. }
    destruct (String.eqb_spec (event.__name e) CUSTOMER_DEACTIVATED) as [Hd|Hd];
      [rewrite (onEvent_deactivated e Hd) in Hrun|].
    { destruct (data w !! key e) as [c|] eqn:Hk.
      - rewrite (deactivated_present e w c Hk) in Hrun. discriminate.
      - rewrite (deactivated_absent e w Hk) in Hrun. inversion Hrun. eauto 7. }
    destruct (String.eqb_spec (event.__name e) CUSTOMER_REACTIVATED) as [Hr|Hr];
      [rewrite (onEvent_reactivated e Hr) in Hrun|].
    { destruct (data w !! key e) as [c|] eqn:Hk.
      - rewrite (reactivated_present e w c Hk) in Hrun. discriminate.
      - rewrite (reactivated_absent e w Hk) in Hrun. inversion Hrun. eauto 7. }
    rewrite (onEvent_unhandled e Hc Hu Hd Hr) in Hrun. discriminate. }
  destruct Hgoal as [-> Hwhy]. repeat split; [|exact Hwhy].
  intros c Hin. simpl in Hin. apply in_app_or in Hin as [Hin | [<- | []]]; auto.
Qed.

(** C4.  From a world with no record for an id, a CUSTOMER_CREATED, then a
    CUSTOMER_DEACTIVATED, then a CUSTOMER_REACTIVATED event for that id each
    return normally, and the record is then the one created, with
    [active = 1]. *)
Theorem created_deactivated_reactivated (id : string) (ec ed er : event.t) (w : World) :
  event.__name ec = CUSTOMER_CREATED -> event.customerId ec = id ->
  event.__name ed = CUSTOMER_DEACTIVATED -> event.customerId ed = id ->
  event.__name er = CUSTOMER_REACTIVATED -> event.customerId er = id ->
  data w !! (CUSTOMERS, id) = None ->
  exists wc wd wr,
    onEvent ec w = (Normal tt, wc) /\
    onEvent ed wc = (Normal tt, wd) /\
    onEvent er wd = (Normal tt, wr) /\
    data wd !! (CUSTOMERS, id) =
      Some (customer.make (event.name ec) (event.email ec) (event.password ec) 0) /\
    data wr !! (CUSTOMERS, id) =
      Some (customer.make (event.name ec) (event.email ec) (event.password ec) 1).
Proof.
  intros Hc Hic Hd Hid Hr Hir Habs.
  rewrite (onEvent_created ec Hc), (onEvent_deactivated ed Hd),
    (onEvent_reactivated er Hr).
  assert (Kc : key ec = (CUSTOMERS, id)) by (unfold key; now rewrite Hic).
  assert (Kd : key ed = (CUSTOMERS, id)) by (unfold key; now rewrite Hid).
  assert (Kr : key er = (CUSTOMERS, id)) by (unfold key; now rewrite Hir).
  eexists. eexists. eexists.
  split; [apply created_absent; now rewrite Kc|].
  split; [eapply deactivated_present; cbv zeta; rewrite data_written, Kc, Kd;
          apply lookup_insert_eq|].
  split; [eapply reactivated_present; cbv zeta; rewrite data_written, Kd, Kr;
          apply lookup_insert_eq|].
  cbv zeta. rewrite !data_written, Kd, Kr. split; apply lookup_insert_eq.
Qed.

(** ** The handler as a function of the record it finds *)

Lemma onEvent_verdict e w :
  exists cs,
    onEvent e w =
      (fst (verdict e (data w !! key e)),
       mkWorld
         (match snd (verdict e (data w !! key e)) with
          | Some r => <[key e := r]> (data w)
          | None => data w
          end)
         (listeners w) (store w) (calls w ++ cs)) /\
    Forall adapter_call cs.
Proof.
  unfold onEvent, verdict.
  destruct (String.eqb (event.__name e) CUSTOMER_CREATED);
    [|destruct (String.eqb (event.__name e) CUSTOMER_UPDATED);
      [|destruct (String.eqb (event.__name e) CUSTOMER_DEACTIVATED);
        [|destruct (String.eqb (event.__name e) CUSTOMER_REACTIVATED)]]].
  5: { exists []. rewrite app_nil_r. destruct w. split; [reflexivity | constructor]. }
  all: unfold onCustomerCreatedEvent, onCustomerUpdatedEvent,
         onCustomerDeactivatedEvent, onCustomerReactivatedEvent,
         bind, adapter.get, adapter.insert, adapter.update, throw, key;
       simpl;
       destruct (data w !! (CUSTOMERS, event.customerId e)) as [c|]; simpl;
       eexists; (split; [unfold record_call, with_data; simpl;
                         rewrite <- ?app_assoc; reflexivity|]);
       repeat constructor.
Qed.

Lemma onEvent_frame e w :
  listeners (after (onEvent e) w) = listeners w /\
  store (after (onEvent e) w) = store w /\
  exists cs, calls (after (onEvent e) w) = calls w ++ cs /\ Forall adapter_call cs.
Proof.
  destruct (onEvent_verdict e w) as (cs & Hrun & Hcs).
  unfold after. rewrite Hrun. simpl. eauto.
Qed.

Lemma onEvent_completes e w :
  completes (onEvent e) w = fst (verdict e (data w !! key e)).
Proof.
  destruct (onEvent_verdict e w) as (cs & Hrun & _).
  unfold completes. now rewrite Hrun.
Qed.

Lemma onEvent_lookup e w k :
  data (after (onEvent e) w) !! k = step k (data w !! k) e.
Proof.
  destruct (onEvent_verdict e w) as (cs & Hrun & _).
  unfold after, step. rewrite Hrun. simpl.
  destruct (decide (key e = k)) as [<- | Hne].
  - destruct (snd (verdict e (data w !! key e))); [apply lookup_insert_eq | reflexivity].
  - destruct (snd (verdict e (data w !! key e))); [now apply lookup_insert_ne | reflexivity].
Qed.

Lemma onEvent_rejected_data e w x :
  completes (onEvent e) w = Throw x -> data (after (onEvent e) w) = data w.
Proof.
  rewrite onEvent_completes.
  destruct (onEvent_verdict e w) as (cs & Hrun & _).
  unfold after. rewrite Hrun. simpl. unfold verdict.
  repeat (destruct (String.eqb _ _); [destruct (data w !! key e); simpl; easy|]).
  easy.
Qed.

(** A record, once there, stays. *)
Lemma step_is_Some k o e : is_Some o -> is_Some (step k o e).
Proof.
  intros Ho. unfold step. destruct (decide _); [|exact Ho].
  destruct (snd (verdict e o)); eauto.
Qed.

Lemma step_Some k c e : step k (Some c) e = Some (amend k c e).
Proof.
  unfold step, amend, verdict. destruct (decide _); [|reflexivity].
  repeat (destruct (String.eqb _ _); [reflexivity|]). reflexivity.
Qed.

Lemma fold_step_Some k es c :
  fold_left (step k) es (Some c) = Some (fold_left (amend k) es c).
Proof.
  revert c. induction es as [|e es IH]; intros c; simpl; [reflexivity|].
  now rewrite step_Some, IH.
Qed.

(** ** Feeding a history twice *)

Lemma overwrite_snoc {A B} (f : B -> option A) es e d :
  overwrite f (es ++ [e]) d = default (overwrite f es d) (f e).
Proof. unfold overwrite. now rewrite fold_left_app. Qed.

Lemma overwrite_twice {A B} (f : B -> option A) es d :
  overwrite f es (overwrite f es d) = overwrite f es d.
Proof.
  revert d. induction es as [|e es IH] using rev_ind; intros d; [reflexivity|].
  rewrite !overwrite_snoc. destruct (f e) as [v|]; simpl; [reflexivity | apply IH].
Qed.

Lemma amend_fields k c e :
  amend k c e =
    customer.make (default (customer.name c) (new_name k e)) (customer.email c)
      (customer.password c) (default (customer.active c) (new_active k e)).
Proof.
  unfold amend, new_name, new_active. destruct c as [n m p a].
  destruct (decide _); [|reflexivity].
  repeat (destruct (String.eqb _ _); [reflexivity|]). reflexivity.
Qed.

Lemma fold_amend_fields k es c :
  fold_left (amend k) es c =
    customer.make (overwrite (new_name k) es (customer.name c)) (customer.email c)
      (customer.password c) (overwrite (new_active k) es (customer.active c)).
Proof.
  revert c. induction es as [|e es IH]; intros c; simpl.
  - now destruct c.
  - rewrite IH, amend_fields. reflexivity.
Qed.

Lemma fold_amend_twice k es c :
  fold_left (amend k) es (fold_left (amend k) es c) = fold_left (amend k) es c.
Proof.
  rewrite (fold_amend_fields k es (fold_left (amend k) es c)).
  rewrite (fold_amend_fields k es c). simpl.
  now rewrite !overwrite_twice.
Qed.

Lemma amend_accepted_absent k e c :
  (key e = k -> fst (verdict e None) = Normal tt) ->
  step k None e = None ->
  amend k c e = c.
Proof.
  unfold step, amend, verdict. intros Hacc Hstep.
  destruct (decide _) as [Hk|]; [|reflexivity]. specialize (Hacc Hk).
  repeat (destruct (String.eqb _ _); [simpl in *; (reflexivity || discriminate)|]).
  reflexivity.
Qed.

Lemma amend_after_creation k e r c :
  step k None e = Some r -> amend k c e = c.
Proof.
  unfold step, amend, verdict. intros Hstep.
  destruct (decide _) as [Hk|]; [|discriminate].
  repeat (destruct (String.eqb _ _); [simpl in *; (reflexivity || discriminate)|]).
  reflexivity.
Qed.

(** For one key: a history that was accepted leaves a record on which the
    same history, fed again event by event, changes nothing. *)
Lemma refeed_key k es o :
  accepted k o es ->
  fold_left (step k) es (fold_left (step k) es o) = fold_left (step k) es o.
Proof.
  destruct o as [c|].
  - intros _. now rewrite !fold_step_Some, fold_amend_twice.
  - induction es as [|e es IH]; [reflexivity|].
    simpl. intros [Hacc Hrest].
    destruct (step k None e) as [r|] eqn:Hstep.
    + rewrite !fold_step_Some. simpl.
      rewrite step_Some, (amend_after_creation k e r _ Hstep).
      now rewrite fold_step_Some, fold_amend_twice.
    + specialize (IH Hrest).
      destruct (fold_left (step k) es None) as [c'|] eqn:Hfold.
      * now rewrite step_Some, (amend_accepted_absent k e c' Hacc Hstep).
      * now rewrite Hstep.
Qed.

Lemma accepted_app k o pre tail :
  accepted k o (pre ++ tail) ->
  accepted k (fold_left (step k) pre o) tail.
Proof.
  revert o. induction pre as [|e pre IH]; intros o; simpl; [easy|].
  intros [_ Hrest]. now apply IH.
Qed.

Lemma feed_each_cons e es w :
  after (feed_each (e :: es)) w = after (feed_each es) (after (onEvent e) w).
Proof.
  unfold after. simpl. unfold bind, attempt, ret.
  destruct (onEvent e w) as [r w']. simpl.
  now destruct (feed_each es w') as [[rs|x] w''].
Qed.

Lemma feed_each_lookup es w k :
  data (after (feed_each es) w) !! k = fold_left (step k) es (data w !! k).
Proof.
  revert w. induction es as [|e es IH]; intros w; [reflexivity|].
  rewrite feed_each_cons, IH, onEvent_lookup. reflexivity.
Qed.

Lemma forEach_cons l e es w :
  forEach l (e :: es) w =
    match run_listener l e (record_call (Invoke l e) w) with
    | (Normal _, w') => forEach l es w'
    | (Throw x, w') => (Throw x, w')
    end.
Proof. reflexivity. Qed.

Lemma run_pair {A} (m : M A) (w : World) : m w = (completes m w, after m w).
Proof. unfold completes, after. now destruct (m w). Qed.

Lemma run_normal {A} (m : M A) (w : World) (a : A) :
  completes m w = Normal a -> m w = (Normal a, after m w).
Proof. intros H. now rewrite (run_pair m w), H. Qed.

(** A replay that returns normally accepted every event, and the record
    under each key is the fold of the history. *)
Lemma forEach_accepted l es w w' k :
  forEach l es w = (Normal tt, w') ->
  accepted k (data w !! k) es /\
  data w' !! k = fold_left (step k) es (data w !! k).
Proof.
  revert w. induction es as [|e es IH]; intros w Hrun.
  - inversion Hrun. now split.
  - rewrite forEach_cons in Hrun. destruct l. simpl run_listener in Hrun.
    rewrite run_pair in Hrun.
    destruct (completes (onEvent e) _) as [[]|x] eqn:Hc; [|discriminate].
    rewrite onEvent_completes in Hc. simpl in Hc.
    destruct (IH _ Hrun) as [Hacc Hfold].
    rewrite onEvent_lookup in Hacc, Hfold. simpl in Hacc, Hfold.
    simpl. split; [split; [intros <-; exact Hc | exact Hacc] | exact Hfold].
Qed.

Lemma fold_step_is_Some k es o :
  is_Some o -> is_Some (fold_left (step k) es o).
Proof.
  revert o. induction es as [|e es IH]; intros o Ho; simpl; [exact Ho|].
  now apply IH, step_is_Some.
Qed.

(** Event-by-event feeding of a tail of an accepted history changes no
    record, whatever the world the history was replayed into. *)
Lemma refeed_tail l pre tail w w1 :
  forEach l (pre ++ tail) w = (Normal tt, w1) ->
  data (after (feed_each tail) w1) = data w1.
Proof.
  intros Hrun. apply map_eq. intros k.
  destruct (forEach_accepted l _ w w1 k Hrun) as [Hacc Hfold].
  rewrite feed_each_lookup, Hfold, fold_left_app.
  now apply refeed_key, accepted_app.
Qed.

Lemma verdict_creation e r c :
  fst (verdict e None) = Normal tt ->
  snd (verdict e None) = Some r ->
  verdict e (Some c) = (Throw (Error "Customer already exists"), None).
Proof.
  unfold verdict.
  repeat (destruct (String.eqb _ _); [simpl; (reflexivity || discriminate)|]).
  discriminate.
Qed.

Lemma verdict_unhandled e o :
  fst (verdict e None) = Normal tt ->
  snd (verdict e None) = None ->
  verdict e o = (Normal tt, None).
Proof.
  unfold verdict.
  repeat (destruct (String.eqb _ _); [simpl; discriminate|]).
  reflexivity.
Qed.

Lemma onEvent_ignored_data e w :
  snd (verdict e (data w !! key e)) = None -> data (after (onEvent e) w) = data w.
Proof.
  intros Hv. destruct (onEvent_verdict e w) as (cs & Hrun & _).
  unfold after. rewrite Hrun. simpl. now rewrite Hv.
Qed.

(** A second replay of a history that a fresh projection accepted stops at
    the first creation and changes no record. *)
Lemma replay_again l es w w1 :
  data w = ∅ ->
  forEach l es w = (Normal tt, w1) ->
  forall w2,
    (forall k, is_Some (data w1 !! k) -> is_Some (data w2 !! k)) ->
    data (after (forEach l es) w2) = data w2.
Proof.
  revert w. induction es as [|e es IH]; intros w Hfresh Hrun w2 Hkeys; [reflexivity|].
  rewrite forEach_cons in Hrun. unfold after. rewrite forEach_cons.
  destruct l. simpl run_listener in *.
  rewrite run_pair in Hrun. rewrite (run_pair (onEvent e)).
  destruct (completes (onEvent e) (record_call _ w)) as [[]|x] eqn:Hc; [|discriminate].
  rewrite onEvent_completes in Hc. simpl in Hc.
  rewrite Hfresh, lookup_empty in Hc.
  rewrite onEvent_completes. simpl data.
  destruct (snd (verdict e None)) as [r|] eqn:Hw.
  - assert (Hthere : is_Some (data w2 !! key e)).
    { apply Hkeys.
      destruct (forEach_accepted _ _ _ _ (key e) Hrun) as [_ ->].
      apply fold_step_is_Some. rewrite onEvent_lookup. simpl.
      rewrite Hfresh, lookup_empty. unfold step.
      rewrite decide_True by reflexivity. rewrite Hw. eauto. }
    destruct Hthere as [c Hc2]. rewrite Hc2.
    rewrite (verdict_creation e r c Hc Hw). simpl.
    rewrite onEvent_ignored_data; [reflexivity|]. simpl. rewrite Hc2.
    now rewrite (verdict_creation e r c Hc Hw).
  - rewrite (verdict_unhandled e _ Hc Hw). simpl.
    assert (Hsame : data (after (onEvent e) (record_call (Invoke CustomerListReadModel_onEvent e) w2)) = data w2).
    { rewrite onEvent_ignored_data; [reflexivity|].
      now rewrite (verdict_unhandled e _ Hc Hw). }
    fold (after (forEach CustomerListReadModel_onEvent es)
            (after (onEvent e) (record_call (Invoke CustomerListReadModel_onEvent e) w2))).
    etransitivity; [|exact Hsame].
    apply (IH (after (onEvent e) (record_call (Invoke CustomerListReadModel_onEvent e) w))).
    + rewrite onEvent_ignored_data; simpl; rewrite Hfresh;
        [reflexivity | rewrite lookup_empty; exact Hw].
    + exact Hrun.
    + intros k Hk. rewrite Hsame. now apply Hkeys.
Qed.

Lemma onEvent_twice e w :
  data (after (onEvent e) (after (onEvent e) w)) = data (after (onEvent e) w).
Proof.
  apply map_eq. intros k. rewrite !onEvent_lookup.
  destruct (data w !! k) as [c|].
  - rewrite !step_Some, !amend_fields. simpl. f_equal. f_equal.
    + now destruct (new_name k e).
    + now destruct (new_active k e).
  - destruct (step k None e) as [r|] eqn:Hstep; [|now rewrite Hstep].
    now rewrite step_Some, (amend_after_creation k e r r Hstep).
Qed.

(** C3.  Let a history be replayed into a fresh projection and be accepted,
    that is, the replay returns normally, as it does for events in an order
    the write side can produce.  Then feeding any tail of it again, event by
    event as live delivery does, leaves every record as it was, and so does a
    second [forEach] replay of the whole history; also a single event handled
    twice in a row leaves the data it left the first time.  (A creation fed
    again is answered by 'Customer already exists' and writes nothing; the
    three other handlers assign the values they assigned before.) *)
Theorem history_fed_twice (pre tail : list event.t) (w w1 : World) :
  data w = ∅ ->
  forEach CustomerListReadModel_onEvent (pre ++ tail) w = (Normal tt, w1) ->
  data (after (feed_each tail) w1) = data w1 /\
  data (after (feed_each (pre ++ tail)) w1) = data w1 /\
  data (after (forEach CustomerListReadModel_onEvent (pre ++ tail)) w1) = data w1 /\
  (forall e w0, data (after (onEvent e) (after (onEvent e) w0)) =
                data (after (onEvent e) w0)).
Proof.
  intros Hfresh Hrun. repeat split.
  - exact (refeed_tail _ pre tail w w1 Hrun).
  - exact (refeed_tail _ [] (pre ++ tail) w w1 Hrun).
  - now apply (replay_again _ _ w w1 Hfresh Hrun).
  - intros e w0. apply onEvent_twice.
Qed.

(** ** Construction *)

Lemma invocations_app cs1 cs2 :
  invocations (cs1 ++ cs2) = invocations cs1 ++ invocations cs2.
Proof.
  induction cs1 as [|c cs1 IH]; [reflexivity|].
  destruct c; simpl; now rewrite IH.
Qed.

Lemma subscriptions_app cs1 cs2 :
  subscriptions (cs1 ++ cs2) = subscriptions cs1 ++ subscriptions cs2.
Proof.
  induction cs1 as [|c cs1 IH]; [reflexivity|].
  destruct c; simpl; now rewrite IH.
Qed.

Lemma adapter_calls_only cs :
  Forall adapter_call cs -> invocations cs = [] /\ subscriptions cs = [].
Proof.
  induction 1 as [|c cs Hc _ IH]; [easy|].
  destruct c; simpl in *; easy.
Qed.

(** What a [forEach] over the handler leaves behind: the bus and the store
    untouched, no subscription, and the events handed over are an initial part
    of the list, all of it when the iteration returns normally. *)
Lemma forEach_calls l es w :
  listeners (after (forEach l es) w) = listeners w /\
  store (after (forEach l es) w) = store w /\
  exists cs,
    calls (after (forEach l es) w) = calls w ++ cs /\
    subscriptions cs = [] /\
    (exists rest, es = invocations cs ++ rest) /\
    (completes (forEach l es) w = Normal tt -> invocations cs = es).
Proof.
  revert w. induction es as [|e es IH]; intros w.
  - repeat split. exists []. rewrite app_nil_r. repeat split. now exists [].
  - unfold after, completes. rewrite forEach_cons. destruct l. simpl run_listener.
    set (wr := record_call (Invoke CustomerListReadModel_onEvent e) w).
    destruct (onEvent_frame e wr) as (Hl & Hs & csa & Hcalls & Hadapter).
    destruct (adapter_calls_only csa Hadapter) as [Hinv Hsub].
    rewrite (run_pair (onEvent e) wr).
    destruct (completes (onEvent e) wr) as [[]|x].
    + destruct (IH (after (onEvent e) wr)) as (Hl' & Hs' & cs & Hcalls' & Hsub' & [rest Hpre] & Hall).
      fold (after (forEach CustomerListReadModel_onEvent es) (after (onEvent e) wr)).
      fold (completes (forEach CustomerListReadModel_onEvent es) (after (onEvent e) wr)).
      rewrite Hl', Hs', Hl, Hs. repeat split.
      exists (Invoke CustomerListReadModel_onEvent e :: csa ++ cs).
      rewrite Hcalls', Hcalls. subst wr. simpl. rewrite <- !app_assoc. simpl.
      rewrite invocations_app, subscriptions_app, Hinv, Hsub. simpl.
      repeat split; [exact Hsub' | exists rest; now f_equal | intros H; f_equal; now apply Hall].
    + simpl. rewrite Hl, Hs. repeat split.
      exists (Invoke CustomerListReadModel_onEvent e :: csa).
      rewrite Hcalls. subst wr. simpl. rewrite <- !app_assoc. simpl.
      rewrite Hinv, Hsub. repeat split; [now exists es | discriminate].
Qed.

Lemma notify_extends ls ch e w :
  exists cs, calls (after (bus.notify ls ch e) w) = calls w ++ cs.
Proof.
  revert w. induction ls as [|[ch0 l0] ls IH]; intros w.
  - exists []. now rewrite app_nil_r.
  - unfold after. simpl. unfold bind.
    destruct (String.eqb ch0 ch).
    + destruct l0. simpl run_listener.
      set (wr := record_call (Invoke CustomerListReadModel_onEvent e) w).
      destruct (onEvent_frame e wr) as (_ & _ & csa & Hcalls & _).
      rewrite (run_pair (onEvent e) wr).
      destruct (completes (onEvent e) wr) as [[]|x].
      * destruct (IH (after (onEvent e) wr)) as [cs Hcs].
        unfold after in Hcs at 1. rewrite Hcs, Hcalls. subst wr. simpl.
        rewrite <- !app_assoc. eauto.
      * simpl. rewrite Hcalls. subst wr. simpl. rewrite <- !app_assoc. eauto.
    + apply IH.
Qed.

(** A publish on a channel reaches the handler subscribed to it. *)
Lemma notify_invokes ls ch l e w :
  In (ch, l) ls ->
  exists cs, calls (after (bus.notify ls ch e) w) = calls w ++ Invoke l e :: cs.
Proof.
  revert w. induction ls as [|[ch0 l0] ls IH]; intros w Hin; [destruct Hin|].
  unfold after. simpl. unfold bind.
  destruct (String.eqb_spec ch0 ch) as [-> | Hne].
  - destruct l0, l. simpl run_listener.
    set (wr := record_call (Invoke CustomerListReadModel_onEvent e) w).
    destruct (onEvent_frame e wr) as (_ & _ & csa & Hcalls & _).
    rewrite (run_pair (onEvent e) wr).
    destruct (completes (onEvent e) wr) as [[]|x].
    + destruct (notify_extends ls ch e (after (onEvent e) wr)) as [cs Hcs].
      unfold after in Hcs at 1. rewrite Hcs, Hcalls. subst wr. simpl.
      rewrite <- !app_assoc. simpl. eauto.
    + simpl. rewrite Hcalls. subst wr. simpl. rewrite <- !app_assoc. simpl. eauto.
  - destruct Hin as [Heq | Hin]; [congruence|]. now apply IH.
Qed.






Lemma notify_single ch l e w :
  bus.notify [(ch, l)] ch e w = run_listener l e (record_call (Invoke l e) w).
Proof.
  simpl. rewrite String.eqb_refl. unfold bind, ret.
  now destruct (run_listener l e _) as [[[]|x] w'].
Qed.



(** ** The command handler's test *)

Lemma existing_stays h n a :
  fold_left Customer.apply h (Customer.Existing n a) <> Customer.Nonexistent.
Proof.
  revert n a. induction h as [|e h IH]; intros n a; [discriminate|].
  simpl. unfold Customer.apply at 2.
  repeat (destruct (String.eqb _ _); [apply IH|]). apply IH.
Qed.

(** An aggregate that folds to the nonexistent state has no creation event
    in the store. *)
Lemma nonexistent_no_creation id es :
  fold_left Customer.apply (filter (fun e => event.customerId e = id) es)
    Customer.Nonexistent = Customer.Nonexistent ->
  filter (fun e => event.__name e = CUSTOMER_CREATED /\ event.customerId e = id) es = [].
Proof.
  induction es as [|e es IH]; [reflexivity|].
  rewrite !filter_cons.
  destruct (decide (event.customerId e = id)) as [Hid|Hid].
  - simpl. unfold Customer.apply at 2.
    destruct (String.eqb_spec (event.__name e) CUSTOMER_CREATED) as [Hn|Hn].
    + intros Hfold. now apply existing_stays in Hfold.
    + intros Hfold. rewrite decide_False by tauto. now apply IH.
  - intros Hfold. rewrite decide_False by tauto. now apply IH.
Qed.

Lemma load_reads_only id w : after (Customer.load id) w = w.
Proof. reflexivity. Qed.

(** C9.  Take any id and name, and a world in which the read model is the
    bus's one subscriber, the customer's aggregate is nonexistent and the
    adapter has no record for the id.  Handling [CreateCustomer(id, name)]
    returns normally: the store has grown by one event, the CUSTOMER_CREATED
    of that id, which is the only creation event of that id in the store, and
    the adapter has grown by one record, that customer with the name and
    [active = 1].  Handling the same command again, in the world so reached,
    throws an error that prints as
    'Error: can not create same customer more than once' and changes nothing:
    no event is appended and the adapter is as it was.  A read model built
    from that one event on an empty adapter holds the same record.  The test
    of the command handler is the case of the id "1234-5678-9012-3456" and the
    name "Test Customer" on an empty store. *)
Theorem create_customer_twice (id name : string) (w : World) :
  listeners w = [("event", CustomerListReadModel_onEvent)] ->
  completes (Customer.load id) w = Normal Customer.Nonexistent ->
  data w !! (CUSTOMERS, id) = None ->
  exists w1,
    CustomerCommandHandler.handle (CreateCustomer id name) w = (Normal tt, w1) /\
    store w1 =
      store w ++ [event.make CUSTOMER_CREATED id (Str name) Undefined Undefined] /\
    filter (fun e => event.__name e = CUSTOMER_CREATED /\ event.customerId e = id)
      (store w1) =
      [event.make CUSTOMER_CREATED id (Str name) Undefined Undefined] /\
    CustomerCommandHandler.handle (CreateCustomer id name) w1 =
      (Throw (Error "can not create same customer more than once"), w1) /\
    toString (Error "can not create same customer more than once") =
      "Error: can not create same customer more than once" /\
    data w1 =
      <[(CUSTOMERS, id) := customer.make (Str name) Undefined Undefined 1]> (data w) /\
    data w1 !! (CUSTOMERS, id) =
      Some (customer.make (Str name) Undefined Undefined 1) /\
    (forall k, k <> (CUSTOMERS, id) -> data w1 !! k = data w !! k) /\
    size (data w1) = S (size (data w)) /\
    data (after CustomerListReadModel
            (with_store [event.make CUSTOMER_CREATED id (Str name) Undefined Undefined]
               fresh)) =
      <[(CUSTOMERS, id) := customer.make (Str name) Undefined Undefined 1]> ∅.
Proof.
  intros Hlisteners Hload Habsent.
  set (created := event.make CUSTOMER_CREATED id (Str name) Undefined Undefined).
  set (record := customer.make (Str name) Undefined Undefined 1).
  assert (Hfold : fold_left Customer.apply
                    (filter (fun e => event.customerId e = id) (store w))
                    Customer.Nonexistent = Customer.Nonexistent).
  { unfold completes, Customer.load, bind, EventStore.loadHistory, ret in Hload.
    simpl in Hload. now injection Hload. }
  set (wp := record_call (Invoke CustomerListReadModel_onEvent created)
               (with_store (store w ++ [created]) w)).
  assert (Hhandled : onEvent created wp =
            (Normal tt, written (AdapterInsert CUSTOMERS id record) created record wp)).
  { rewrite (onEvent_created created eq_refl). apply (created_absent created wp).
    exact Habsent. }
  assert (Hfirst : CustomerCommandHandler.handle (CreateCustomer id name) w =
            (Normal tt, written (AdapterInsert CUSTOMERS id record) created record wp)).
  { unfold CustomerCommandHandler.handle. simpl command.type.
    rewrite String.eqb_refl. unfold Customer.create, bind at 1.
    rewrite (run_pair (Customer.load _) w), load_reads_only.
    simpl command.aggregateId. rewrite Hload.
    unfold EventStore.append, bind, bus.emit. simpl listeners. rewrite Hlisteners.
    rewrite notify_single. simpl run_listener. exact Hhandled. }
  exists (written (AdapterInsert CUSTOMERS id record) created record wp).
  split; [exact Hfirst|]. split; [reflexivity|].
  split.
  { simpl store. rewrite filter_app, (nonexistent_no_creation id _ Hfold).
    rewrite filter_cons, decide_True by (split; reflexivity). reflexivity. }
  split.
  { unfold CustomerCommandHandler.handle. simpl command.type.
    rewrite String.eqb_refl. unfold Customer.create, bind at 1.
    unfold Customer.load, bind, EventStore.loadHistory, ret. simpl.
    rewrite filter_app, fold_left_app, Hfold.
    rewrite filter_cons, decide_True by reflexivity. reflexivity. }
  split; [reflexivity|].
  split; [reflexivity|].
  split; [apply lookup_insert_eq|].
  split; [intros k Hk; now apply lookup_insert_ne|].
  split; [now apply map_size_insert_None|].
  unfold after, CustomerListReadModel, bind, bus.on. simpl store.
  rewrite forEach_cons. simpl run_listener.
  rewrite (onEvent_created created eq_refl).
  rewrite (created_absent created) by apply lookup_empty.
  reflexivity.
Qed.

(** ** The theorems at work on sample events *)

Lemma created_inserts_or_rejects_witness :
  event.__name created_1 = CUSTOMER_CREATED /\
  (exists w',
     onEvent created_1 fresh = (Normal tt, w') /\
     data w' !! (CUSTOMERS, CUSTOMER_1_ID) =
       Some (customer.make (Str CUSTOMER_1_NAME) Undefined Undefined 1) /\
     size (data w') = 1) /\
  (exists w',
     onEvent created_1 with_customer_1 = (Throw (Error "Customer already exists"), w') /\
     data w' = data with_customer_1).
Proof.
  split; [reflexivity|]. split.
  - destruct (created_inserts_or_rejects created_1 fresh eq_refl) as [Habsent _].
    destruct (Habsent eq_refl) as (w' & Hrun & Hrec & _ & Hsize & _).
    exists w'. repeat split; assumption.
  - destruct (created_inserts_or_rejects created_1 with_customer_1 eq_refl)
      as [_ Hpresent].
    destruct Hpresent as (w' & Hrun & Hdata & _).
    + exists (customer.make (Str CUSTOMER_1_NAME) Undefined Undefined 1).
      vm_compute. reflexivity.
    + exists w'. split; assumption.
Defined.

Lemma missing_record_rejected_witness :
  event.__name deactivated_1 = CUSTOMER_DEACTIVATED /\
  data fresh !! (CUSTOMERS, event.customerId deactivated_1) = None /\
  exists w',
    onEvent deactivated_1 fresh = (Throw (Error "Customer not found"), w') /\
    data w' = data fresh /\
    data w' !! (CUSTOMERS, event.customerId deactivated_1) = None /\
    calls w' = calls fresh ++ [AdapterGet CUSTOMERS (event.customerId deactivated_1)].
Proof.
  split; [reflexivity|]. split; [reflexivity|].
  apply (missing_record_rejected deactivated_1 fresh); [right; left|]; reflexivity.
Defined.

Lemma history_fed_twice_witness :
  data fresh = ∅ /\
  forEach CustomerListReadModel_onEvent (history_pre ++ history_tail) fresh =
    (Normal tt, replayed) /\
  data (after (feed_each history_tail) replayed) = data replayed /\
  data (after (feed_each (history_pre ++ history_tail)) replayed) = data replayed /\
  data (after (forEach CustomerListReadModel_onEvent (history_pre ++ history_tail))
          replayed) = data replayed.
Proof.
  assert (Hrun : forEach CustomerListReadModel_onEvent (history_pre ++ history_tail) fresh =
                 (Normal tt, replayed))
    by (unfold replayed; apply run_normal; vm_compute; reflexivity).
  split; [reflexivity|]. split; [exact Hrun|].
  destruct (history_fed_twice history_pre history_tail fresh replayed eq_refl Hrun)
    as (Htail & Hall & Hreplay & _).
  repeat split; assumption.
Defined.

Lemma created_deactivated_reactivated_witness :
  data fresh !! (CUSTOMERS, CUSTOMER_1_ID) = None /\
  exists wc wd wr,
    onEvent created_1 fresh = (Normal tt, wc) /\
    onEvent deactivated_1 wc = (Normal tt, wd) /\
    onEvent reactivated_1 wd = (Normal tt, wr) /\
    data wd !! (CUSTOMERS, CUSTOMER_1_ID) =
      Some (customer.make (Str CUSTOMER_1_NAME) Undefined Undefined 0) /\
    data wr !! (CUSTOMERS, CUSTOMER_1_ID) =
      Some (customer.make (Str CUSTOMER_1_NAME) Undefined Undefined 1).
Proof.
  split; [reflexivity|].
  apply (created_deactivated_reactivated CUSTOMER_1_ID created_1 deactivated_1
           reactivated_1 fresh); reflexivity.
Defined.

Lemma updated_changes_name_only_witness :
  event.__name updated_1 = CUSTOMER_UPDATED /\
  data with_customer_1 !! (CUSTOMERS, event.customerId updated_1) =
    Some (customer.make (Str CUSTOMER_1_NAME) Undefined Undefined 1) /\
  exists w' c',
    onEvent updated_1 with_customer_1 = (Normal tt, w') /\
    data w' !! (CUSTOMERS, event.customerId updated_1) = Some c' /\
    customer.name c' = Str "Renamed Customer" /\
    customer.email c' = Undefined /\
    customer.password c' = Undefined /\
    customer.active c' = 1%Z /\
    (forall k, k <> (CUSTOMERS, event.customerId updated_1) ->
               data w' !! k = data with_customer_1 !! k).
Proof.
  assert (Hrecord : data with_customer_1 !! (CUSTOMERS, event.customerId updated_1) =
                    Some (customer.make (Str CUSTOMER_1_NAME) Undefined Undefined 1))
    by (vm_compute; reflexivity).
  split; [reflexivity|]. split; [exact Hrecord|].
  exact (updated_changes_name_only updated_1 with_customer_1 _ eq_refl Hrecord).
Defined.

Lemma activation_sets_flag_only_witness :
  data with_customer_1 !! (CUSTOMERS, CUSTOMER_1_ID) =
    Some (customer.make (Str CUSTOMER_1_NAME) Undefined Undefined 1) /\
  (exists w',
     onEvent deactivated_1 with_customer_1 = (Normal tt, w') /\
     data w' !! (CUSTOMERS, CUSTOMER_1_ID) =
       Some (customer.make (Str CUSTOMER_1_NAME) Undefined Undefined 0)) /\
  (exists w',
     onEvent reactivated_1 with_customer_1 = (Normal tt, w') /\
     data w' !! (CUSTOMERS, CUSTOMER_1_ID) =
       Some (customer.make (Str CUSTOMER_1_NAME) Undefined Undefined 1)).
Proof.
  assert (Hrecord : data with_customer_1 !! (CUSTOMERS, CUSTOMER_1_ID) =
                    Some (customer.make (Str CUSTOMER_1_NAME) Undefined Undefined 1))
    by (vm_compute; reflexivity).
  split; [exact Hrecord|]. split.
  - destruct (activation_sets_flag_only deactivated_1 with_customer_1 _ Hrecord)
      as [Hoff _].
    destruct (Hoff eq_refl) as (w' & Hrun & Hflag & _). exists w'. now split.
  - destruct (activation_sets_flag_only reactivated_1 with_customer_1 _ Hrecord)
      as [_ Hon].
    destruct (Hon eq_refl) as (w' & Hrun & Hflag & _). exists w'. now split.
Defined.

Lemma unhandled_event_ignored_witness :
  event.__name registered_1 = CUSTOMER_REGISTERED /\
  onEvent registered_1 with_customer_1 = (Normal tt, with_customer_1).
Proof.
  split; [reflexivity|].
  apply (unhandled_event_ignored registered_1 with_customer_1). right. reflexivity.
Defined.

Lemma failure_is_atomic_witness :
  onEvent created_1 with_customer_1 =
    (Throw (Error "Customer already exists"),
     record_call (AdapterGet CUSTOMERS CUSTOMER_1_ID) with_customer_1) /\
  data (record_call (AdapterGet CUSTOMERS CUSTOMER_1_ID) with_customer_1) =
    data with_customer_1.
Proof.
  assert (Hrun : onEvent created_1 with_customer_1 =
            (Throw (Error "Customer already exists"),
             record_call (AdapterGet CUSTOMERS CUSTOMER_1_ID) with_customer_1))
    by (rewrite (onEvent_created created_1 eq_refl);
        apply (created_present created_1 with_customer_1
                 (customer.make (Str CUSTOMER_1_NAME) Undefined Undefined 1));
        vm_compute; reflexivity).
  split; [exact Hrun|].
  exact (proj1 (proj2 (failure_is_atomic created_1 with_customer_1 _ _ Hrun))).
Defined.



Lemma create_customer_twice_witness :
  listeners (after CustomerListReadModel fresh) =
    [("event", CustomerListReadModel_onEvent)] /\
  completes (Customer.load CUSTOMER_1_ID) (after CustomerListReadModel fresh) =
    Normal Customer.Nonexistent /\
  data (after CustomerListReadModel fresh) !! (CUSTOMERS, CUSTOMER_1_ID) = None /\
  exists w1,
    CustomerCommandHandler.handle createCustomerCommand (after CustomerListReadModel fresh) =
      (Normal tt, w1) /\
    store w1 = [created_1] /\
    CustomerCommandHandler.handle createCustomerCommand w1 =
      (Throw (Error "can not create same customer more than once"), w1) /\
    map_to_list (data w1) =
      [((CUSTOMERS, CUSTOMER_1_ID),
        customer.make (Str "Test Customer") Undefined Undefined 1)] /\
    size (data w1) = 1.
Proof.
  assert (Hl : listeners (after CustomerListReadModel fresh) =
               [("event", CustomerListReadModel_onEvent)]) by reflexivity.
  assert (Hload : completes (Customer.load CUSTOMER_1_ID)
                    (after CustomerListReadModel fresh) = Normal Customer.Nonexistent)
    by reflexivity.
  assert (Hempty : data (after CustomerListReadModel fresh) = ∅) by reflexivity.
  assert (Habsent : data (after CustomerListReadModel fresh)
                      !! (CUSTOMERS, CUSTOMER_1_ID) = None)
    by (rewrite Hempty; apply lookup_empty).
  split; [exact Hl|]. split; [exact Hload|]. split; [exact Habsent|].
  destruct (create_customer_twice CUSTOMER_1_ID CUSTOMER_1_NAME
              (after CustomerListReadModel fresh) Hl Hload Habsent)
    as (w1 & Hfirst & Hstore & _ & Hsecond & _ & Hdata & _ & _ & Hsize & _).
  exists w1. split; [exact Hfirst|]. split; [exact Hstore|]. split; [exact Hsecond|].
  split.
  - rewrite Hdata, Hempty, insert_empty. apply map_to_list_singleton.
  - now rewrite Hsize, Hempty, map_size_empty.
Defined.

(** A [forEach] over a proper tail is another matter: it stops at the first
    creation it meets again, and what the events before it re-assigned stays
    re-assigned.  Here the first customer is left deactivated. *)
Example tail_replay_stops_at_creation :
  completes (forEach CustomerListReadModel_onEvent history_tail) replayed =
    Throw (Error "Customer already exists") /\
  customer.active <$> data replayed !! (CUSTOMERS, CUSTOMER_1_ID) = Some 1%Z /\
  customer.active <$>
    data (after (forEach CustomerListReadModel_onEvent history_tail) replayed)
      !! (CUSTOMERS, CUSTOMER_1_ID) = Some 0%Z.
Proof. vm_compute. repeat split. Qed.

(** * Further properties of the handlers and of the replay *)

(** ** What holds of one event holds of a list of them *)

Section Invariant.
Variable P : gmap (string * string) customer.t -> Prop.
Hypothesis P_onEvent : forall e w, P (data w) -> P (data (after (onEvent e) w)).

Lemma feed_each_invariant es w :
  P (data w) -> P (data (after (feed_each es) w)).
Proof.
  revert w. induction es as [|e es IH]; intros w Hw; [exact Hw|].
  rewrite feed_each_cons. now apply IH, P_onEvent.
Qed.

Lemma forEach_invariant l es w :
  P (data w) -> P (data (after (forEach l es) w)).
Proof.
  revert w. induction es as [|e es IH]; intros w Hw; [exact Hw|].
  unfold after. rewrite forEach_cons. destruct l. simpl run_listener.
  set (wr := record_call (Invoke CustomerListReadModel_onEvent e) w).
  assert (Hstep : P (data (after (onEvent e) wr))) by now apply P_onEvent.
  rewrite (run_pair (onEvent e) wr).
  destruct (completes (onEvent e) wr) as [[]|x]; [|exact Hstep].
  now apply IH.
Qed.

Lemma construction_invariant w :
  P (data w) -> P (data (after CustomerListReadModel w)).
Proof.
  intros Hw.
  exact (forEach_invariant CustomerListReadModel_onEvent (store w)
           (record_call (BusOn "event" CustomerListReadModel_onEvent)
              (with_listeners (listeners w ++ [("event", CustomerListReadModel_onEvent)]) w))
           Hw).
Qed.
End Invariant.

(** ** Frame and invariants *)

(** X1.  Whatever the event, [onEvent] leaves every key other than the
    event's customer in the customers collection as it was, and it leaves the
    bus subscriptions and the store alone. *)
Theorem onEvent_touches_one_key (e : event.t) (w : World) (k : string * string) :
  k <> (CUSTOMERS, event.customerId e) ->
  data (after (onEvent e) w) !! k = data w !! k /\
  listeners (after (onEvent e) w) = listeners w /\
  store (after (onEvent e) w) = store w.
Proof.
  intros Hk. destruct (onEvent_frame e w) as (Hl & Hs & _).
  split; [|now split].
  rewrite onEvent_lookup. unfold step, key.
  now rewrite decide_False by congruence.
Qed.

(** X2.  No handler removes a record: a key that holds a record holds one
    after any list of events has been fed one by one, after any [forEach]
    replay, however it completes, and after the construction of the read
    model. *)
Theorem records_never_removed (es : list event.t) (w : World) (k : string * string) :
  is_Some (data w !! k) ->
  is_Some (data (after (feed_each es) w) !! k) /\
  is_Some (data (after (forEach CustomerListReadModel_onEvent es) w) !! k) /\
  is_Some (data (after CustomerListReadModel w) !! k).
Proof.
  intros Hk.
  assert (Hone : forall e w0, is_Some (data w0 !! k) ->
                              is_Some (data (after (onEvent e) w0) !! k)).
  { intros e w0 H0. rewrite onEvent_lookup. now apply step_is_Some. }
  split; [|split].
  - now apply (feed_each_invariant (fun m => is_Some (m !! k))).
  - now apply (forEach_invariant (fun m => is_Some (m !! k))).
  - now apply (construction_invariant (fun m => is_Some (m !! k))).
Qed.

(** X3.  No handler assigns the email or the password of a record that is
    there: after any list of events, fed one by one or replayed, the record
    under a key has the email and the password it had. *)
Theorem contact_fields_kept (es : list event.t) (w : World) (k : string * string)
    (c : customer.t) :
  data w !! k = Some c ->
  (exists c', data (after (feed_each es) w) !! k = Some c' /\
              customer.email c' = customer.email c /\
              customer.password c' = customer.password c) /\
  (exists c', data (after (forEach CustomerListReadModel_onEvent es) w) !! k = Some c' /\
              customer.email c' = customer.email c /\
              customer.password c' = customer.password c).
Proof.
  intros Hk.
  set (P := fun m : gmap (string * string) customer.t =>
              exists c', m !! k = Some c' /\
                         customer.email c' = customer.email c /\
                         customer.password c' = customer.password c).
  assert (Hone : forall e w0, P (data w0) -> P (data (after (onEvent e) w0))).
  { intros e w0 (c0 & H0 & Hm & Hp). unfold P.
    rewrite onEvent_lookup, H0, step_Some, amend_fields.
    eexists. split; [reflexivity|]. simpl. now split. }
  assert (Hstart : P (data w)) by (exists c; now split).
  split.
  - now apply (feed_each_invariant P).
  - now apply (forEach_invariant P).
Qed.

Lemma binary_flags_onEvent e w :
  binary_flags (data w) -> binary_flags (data (after (onEvent e) w)).
Proof.
  intros Hw k c. rewrite onEvent_lookup.
  destruct (data w !! k) as [c0|] eqn:H0.
  - rewrite step_Some. intros [= <-].
    specialize (Hw k c0 H0).
    unfold amend. destruct (decide _); [|exact Hw].
    repeat (destruct (String.eqb _ _); [simpl; auto|]). exact Hw.
  - unfold step, verdict. destruct (decide _); [|discriminate].
    repeat (destruct (String.eqb _ _); [simpl; intros [= <-]; simpl; auto|]).
    discriminate.
Qed.

(** X4.  The flag of every record is 0 or 1, and stays so: if it holds of the
    adapter's data, an empty adapter included, it holds after any list of
    events fed one by one, after any replay and after the construction of the
    read model. *)
Theorem flags_stay_binary (es : list event.t) (w : World) :
  binary_flags (data w) ->
  binary_flags (data (after (feed_each es) w)) /\
  binary_flags (data (after (forEach CustomerListReadModel_onEvent es) w)) /\
  binary_flags (data (after CustomerListReadModel w)).
Proof.
  intros Hw. split; [|split].
  - exact (feed_each_invariant binary_flags binary_flags_onEvent es w Hw).
  - exact (forEach_invariant binary_flags binary_flags_onEvent _ es w Hw).
  - exact (construction_invariant binary_flags binary_flags_onEvent w Hw).
Qed.

(** X5.  The adapter calls of one [onEvent] are none, or a [get] of the
    event's customer alone, or that [get] followed by one write of the same
    key; the write is an [insert] only when no record was there and an
    [update] only when one was.  So the handlers never insert over a record
    and never update a missing one. *)
Theorem adapter_call_discipline (e : event.t) (w : World) :
  exists cs,
    calls (after (onEvent e) w) = calls w ++ cs /\
    (cs = [] \/
     cs = [AdapterGet CUSTOMERS (event.customerId e)] \/
     (exists r,
        cs = [AdapterGet CUSTOMERS (event.customerId e);
              AdapterInsert CUSTOMERS (event.customerId e) r] /\
        data w !! (CUSTOMERS, event.customerId e) = None) \/
     (exists c r,
        cs = [AdapterGet CUSTOMERS (event.customerId e);
              AdapterUpdate CUSTOMERS (event.customerId e) r] /\
        data w !! (CUSTOMERS, event.customerId e) = Some c)).
Proof.
  unfold after, onEvent.
  destruct (String.eqb (event.__name e) CUSTOMER_CREATED);
    [|destruct (String.eqb (event.__name e) CUSTOMER_UPDATED);
      [|destruct (String.eqb (event.__name e) CUSTOMER_DEACTIVATED);
        [|destruct (String.eqb (event.__name e) CUSTOMER_REACTIVATED)]]].
  5: { exists []. rewrite app_nil_r. auto. }
  all: unfold onCustomerCreatedEvent, onCustomerUpdatedEvent,
         onCustomerDeactivatedEvent, onCustomerReactivatedEvent,
         bind, adapter.get, adapter.insert, adapter.update, throw;
       simpl;
       destruct (data w !! (CUSTOMERS, event.customerId e)) as [c|] eqn:Hk; simpl;
       rewrite <- ?app_assoc; simpl; eexists; (split; [reflexivity|]); eauto 7.
Qed.

(** ** How events compose *)

(** X6.  Events of different customers do not interfere: handled in either
    order they leave the same data, and each completes as it would have
    completed alone. *)
Theorem different_customers_commute (e1 e2 : event.t) (w : World) :
  event.customerId e1 <> event.customerId e2 ->
  data (after (onEvent e2) (after (onEvent e1) w)) =
    data (after (onEvent e1) (after (onEvent e2) w)) /\
  completes (onEvent e2) (after (onEvent e1) w) = completes (onEvent e2) w /\
  completes (onEvent e1) (after (onEvent e2) w) = completes (onEvent e1) w.
Proof.
  intros Hid.
  assert (Hkeys : key e1 <> key e2) by (unfold key; congruence).
  split; [|split].
  - apply map_eq. intros k. rewrite !onEvent_lookup. unfold step.
    destruct (decide (key e1 = k)) as [H1|H1], (decide (key e2 = k)) as [H2|H2];
      try reflexivity.
    congruence.
  - rewrite !onEvent_completes, onEvent_lookup. unfold step.
    now rewrite decide_False.
  - rewrite !onEvent_completes, onEvent_lookup. unfold step.
    now rewrite decide_False by congruence.
Qed.

Lemma forEach_app l es1 es2 w :
  forEach l (es1 ++ es2) w =
    match forEach l es1 w with
    | (Normal _, w') => forEach l es2 w'
    | (Throw x, w') => (Throw x, w')
    end.
Proof.
  revert w. induction es1 as [|e es1 IH]; intros w; [reflexivity|].
  rewrite <- app_comm_cons, !forEach_cons.
  destruct (run_listener l e _) as [[[]|x] w']; [apply IH | reflexivity].
Qed.

(** X7.  A replay stops at the first event the handler rejects: when the
    events before it were accepted and the handler throws on it in the world
    they left, the replay of the whole list throws that exception, the data is
    the data those events left, and the events handed to the handler are the
    accepted ones and the rejected one, none of those after it. *)
Theorem replay_stops_at_rejection (es1 es2 : list event.t) (e : event.t)
    (w w1 : World) (x : exn) :
  forEach CustomerListReadModel_onEvent es1 w = (Normal tt, w1) ->
  completes (onEvent e) w1 = Throw x ->
  completes (forEach CustomerListReadModel_onEvent (es1 ++ e :: es2)) w = Throw x /\
  data (after (forEach CustomerListReadModel_onEvent (es1 ++ e :: es2)) w) = data w1 /\
  exists cs,
    calls (after (forEach CustomerListReadModel_onEvent (es1 ++ e :: es2)) w) =
      calls w ++ cs /\
    invocations cs = es1 ++ [e].
Proof.
  intros Hrun Hthrow.
  set (wr := record_call (Invoke CustomerListReadModel_onEvent e) w1).
  assert (Hthrow' : completes (onEvent e) wr = Throw x)
    by (rewrite onEvent_completes in *; exact Hthrow).
  assert (Hall : forEach CustomerListReadModel_onEvent (es1 ++ e :: es2) w =
                 (Throw x, after (onEvent e) wr)).
  { rewrite forEach_app, Hrun, forEach_cons. simpl run_listener. fold wr.
    now rewrite (run_pair (onEvent e) wr), Hthrow'. }
  unfold completes, after at 1 2. rewrite Hall. simpl.
  split; [reflexivity|]. split.
  - now rewrite (onEvent_rejected_data e wr x Hthrow').
  - destruct (forEach_calls CustomerListReadModel_onEvent es1 w)
      as (_ & _ & cs1 & Hcalls1 & _ & _ & Hinv1).
    unfold after, completes in Hcalls1, Hinv1. rewrite Hrun in Hcalls1, Hinv1.
    simpl in Hcalls1, Hinv1. specialize (Hinv1 eq_refl).
    destruct (onEvent_frame e wr) as (_ & _ & csa & Hcallsa & Hadapter).
    destruct (adapter_calls_only csa Hadapter) as [Hinva _].
    exists (cs1 ++ Invoke CustomerListReadModel_onEvent e :: csa).
    rewrite Hcallsa. subst wr. simpl. rewrite Hcalls1, <- !app_assoc. simpl.
    split; [reflexivity|].
    rewrite invocations_app. simpl. now rewrite Hinv1, Hinva.
Qed.

Ltac same_key Hid :=
  apply map_eq; intros k; rewrite !onEvent_lookup;
  unfold step, verdict, key; rewrite Hid.

Ltac settle :=
  simpl; destruct (decide _); [|reflexivity];
  match goal with
  | |- context [data ?w !! ?k] => destruct (data w !! k) as [[n m p a]|]; reflexivity
  end.

(** X9.  Of two renamings of one customer the later one decides, and of two
    events that set the flag of one customer the later one decides: handling
    the earlier event first makes no difference to the data. *)
Theorem later_assignment_wins (e1 e2 : event.t) (w : World) :
  event.customerId e1 = event.customerId e2 ->
  (event.__name e1 = CUSTOMER_UPDATED /\ event.__name e2 = CUSTOMER_UPDATED) \/
  ((event.__name e1 = CUSTOMER_DEACTIVATED \/ event.__name e1 = CUSTOMER_REACTIVATED) /\
   (event.__name e2 = CUSTOMER_DEACTIVATED \/ event.__name e2 = CUSTOMER_REACTIVATED)) ->
  data (after (onEvent e2) (after (onEvent e1) w)) = data (after (onEvent e2) w).
Proof.
  intros Hid [[H1 H2] | [[H1|H1] [H2|H2]]]; same_key Hid; rewrite H1, H2; settle.
Qed.

(** X10.  A renaming and a change of flag of one customer commute: they
    assign different fields of the record, so either order leaves the same
    data. *)
Theorem rename_and_flag_commute (e1 e2 : event.t) (w : World) :
  event.customerId e1 = event.customerId e2 ->
  event.__name e1 = CUSTOMER_UPDATED ->
  event.__name e2 = CUSTOMER_DEACTIVATED \/ event.__name e2 = CUSTOMER_REACTIVATED ->
  data (after (onEvent e2) (after (onEvent e1) w)) =
    data (after (onEvent e1) (after (onEvent e2) w)).
Proof.
  intros Hid H1 [H2|H2]; same_key Hid; rewrite H1, H2; settle.
Qed.

(** X11.  The handlers read of an event only what they assign: a renaming is
    decided by its tag, customer and name, a change of flag by its tag and
    customer.  Two such events that agree on these leave the same world,
    whatever their other fields hold. *)
Theorem unread_fields_do_not_matter (e1 e2 : event.t) (w : World) :
  event.__name e1 = event.__name e2 ->
  event.customerId e1 = event.customerId e2 ->
  (event.__name e1 = CUSTOMER_UPDATED /\ event.name e1 = event.name e2) \/
  event.__name e1 = CUSTOMER_DEACTIVATED \/
  event.__name e1 = CUSTOMER_REACTIVATED ->
  onEvent e1 w = onEvent e2 w.
Proof.
  intros Hn Hid Hkind. unfold onEvent. rewrite <- Hn.
  destruct Hkind as [[H1 Hname] | [H1 | H1]]; rewrite H1; simpl.
  - unfold onCustomerUpdatedEvent. now rewrite Hid, Hname.
  - unfold onCustomerDeactivatedEvent. now rewrite Hid.
  - unfold onCustomerReactivatedEvent. now rewrite Hid.
Qed.

(** ** What an accepted history leaves *)

Lemma creations_cons e es :
  creations (e :: es) =
    (if String.eqb (event.__name e) CUSTOMER_CREATED then 1 else 0) + creations es.
Proof.
  unfold creations. rewrite filter_cons.
  destruct (String.eqb_spec (event.__name e) CUSTOMER_CREATED) as [Hc|Hc].
  - now rewrite decide_True.
  - now rewrite decide_False.
Qed.

Lemma size_after_accepted e w :
  completes (onEvent e) w = Normal tt ->
  size (data (after (onEvent e) w)) =
    (if String.eqb (event.__name e) CUSTOMER_CREATED then 1 else 0) + size (data w).
Proof.
  rewrite onEvent_completes.
  destruct (onEvent_verdict e w) as (cs & Hrun & _).
  unfold after. rewrite Hrun. simpl. unfold verdict.
  destruct (String.eqb (event.__name e) CUSTOMER_CREATED).
  { destruct (data w !! key e) eqn:Hk; simpl; [discriminate|].
    intros _. now apply map_size_insert_None. }
  repeat (destruct (String.eqb _ _);
          [destruct (data w !! key e) eqn:Hk; simpl; [|discriminate];
           intros _; now apply map_size_insert_Some|]).
  reflexivity.
Qed.

(** X12.  One record per creation: when a replay returns normally, the
    adapter holds as many records more than before as the history has
    CUSTOMER_CREATED events. *)
Theorem one_record_per_creation (es : list event.t) (w w1 : World) :
  forEach CustomerListReadModel_onEvent es w = (Normal tt, w1) ->
  size (data w1) = size (data w) + creations es.
Proof.
  revert w. induction es as [|e es IH]; intros w Hrun.
  - inversion Hrun. unfold creations. simpl. lia.
  - rewrite forEach_cons in Hrun. simpl run_listener in Hrun.
    rewrite run_pair in Hrun.
    destruct (completes (onEvent e) _) as [[]|x] eqn:Hc; [|discriminate].
    rewrite (IH _ Hrun), (size_after_accepted e _ Hc), creations_cons. simpl. lia.
Qed.

Lemma overwrite_none {A B} (f : B -> option A) es d :
  (forall e, In e es -> f e = None) -> overwrite f es d = d.
Proof.
  unfold overwrite. revert d. induction es as [|e es IH]; intros d Hnone; [reflexivity|].
  simpl. rewrite (Hnone e) by now left. simpl. apply IH.
  intros e' Hin. apply Hnone. now right.
Qed.

(** In an accepted history, the record of an event's customer at the end is
    the record the event left, amended by the events after it. *)
Lemma accepted_split l es1 e es2 w w1 :
  forEach l (es1 ++ e :: es2) w = (Normal tt, w1) ->
  exists o1,
    fst (verdict e o1) = Normal tt /\
    data w1 !! key e = fold_left (step (key e)) es2 (step (key e) o1 e).
Proof.
  intros Hrun.
  destruct (forEach_accepted l _ w w1 (key e) Hrun) as [Hacc Hfold].
  apply accepted_app in Hacc. destruct Hacc as [Hacc _].
  rewrite fold_left_app in Hfold. simpl in Hfold.
  eexists. split; [apply Hacc; reflexivity | exact Hfold].
Qed.

Lemma step_of_creation e o :
  event.__name e = CUSTOMER_CREATED ->
  fst (verdict e o) = Normal tt ->
  step (key e) o e =
    Some (customer.make (event.name e) (event.email e) (event.password e) 1).
Proof.
  intros Hn. unfold step, verdict. rewrite Hn, decide_True by reflexivity. simpl.
  now destruct o.
Qed.

Lemma step_of_update e o :
  event.__name e = CUSTOMER_UPDATED ->
  fst (verdict e o) = Normal tt ->
  exists c, o = Some c /\ step (key e) o e = Some (customer.set_name (event.name e) c).
Proof.
  intros Hn. unfold step, verdict. rewrite Hn, decide_True by reflexivity. simpl.
  destruct o as [c|]; [eauto | discriminate].
Qed.

Lemma step_of_deactivation e o :
  event.__name e = CUSTOMER_DEACTIVATED ->
  fst (verdict e o) = Normal tt ->
  exists c, o = Some c /\ step (key e) o e = Some (customer.set_active 0 c).
Proof.
  intros Hn. unfold step, verdict. rewrite Hn, decide_True by reflexivity. simpl.
  destruct o as [c|]; [eauto | discriminate].
Qed.

Lemma step_of_reactivation e o :
  event.__name e = CUSTOMER_REACTIVATED ->
  fst (verdict e o) = Normal tt ->
  exists c, o = Some c /\ step (key e) o e = Some (customer.set_active 1 c).
Proof.
  intros Hn. unfold step, verdict. rewrite Hn, decide_True by reflexivity. simpl.
  destruct o as [c|]; [eauto | discriminate].
Qed.

Lemma no_later_name e es2 :
  (forall e', In e' es2 -> event.customerId e' = event.customerId e ->
              event.__name e' <> CUSTOMER_UPDATED) ->
  forall e', In e' es2 -> new_name (key e) e' = None.
Proof.
  intros Hlater e' Hin. unfold new_name, key.
  destruct (decide _) as [Hk|]; [|reflexivity].
  assert (Hid : event.customerId e' = event.customerId e) by congruence.
  specialize (Hlater e' Hin Hid). apply String.eqb_neq in Hlater.
  rewrite Hlater.
  destruct (String.eqb (event.__name e') CUSTOMER_CREATED); reflexivity.
Qed.

Lemma no_later_flag e es2 :
  (forall e', In e' es2 -> event.customerId e' = event.customerId e ->
              event.__name e' <> CUSTOMER_DEACTIVATED /\
              event.__name e' <> CUSTOMER_REACTIVATED) ->
  forall e', In e' es2 -> new_active (key e) e' = None.
Proof.
  intros Hlater e' Hin. unfold new_active, key.
  destruct (decide _) as [Hk|]; [|reflexivity].
  assert (Hid : event.customerId e' = event.customerId e) by congruence.
  destruct (Hlater e' Hin Hid) as [Hd Hr].
  apply String.eqb_neq in Hd, Hr. rewrite Hd, Hr.
  destruct (String.eqb (event.__name e') CUSTOMER_CREATED); [reflexivity|].
  destruct (String.eqb (event.__name e') CUSTOMER_UPDATED); reflexivity.
Qed.

(** X13.  The name of a record is the last name assigned: in a history whose
    replay returns normally, take a creation or a renaming that no renaming
    of the same customer follows; the customer's record at the end carries
    that event's name. *)
Theorem name_is_last_assigned (es1 es2 : list event.t) (e : event.t) (w w1 : World) :
  forEach CustomerListReadModel_onEvent (es1 ++ e :: es2) w = (Normal tt, w1) ->
  event.__name e = CUSTOMER_CREATED \/ event.__name e = CUSTOMER_UPDATED ->
  (forall e', In e' es2 -> event.customerId e' = event.customerId e ->
              event.__name e' <> CUSTOMER_UPDATED) ->
  exists c,
    data w1 !! (CUSTOMERS, event.customerId e) = Some c /\
    customer.name c = event.name e.
Proof.
  intros Hrun Hkind Hlater.
  destruct (accepted_split _ _ _ _ _ _ Hrun) as (o1 & Hok & Hfold).
  assert (Hstep : exists c1, step (key e) o1 e = Some c1 /\
                             customer.name c1 = event.name e).
  { destruct Hkind as [Hn|Hn].
    - rewrite (step_of_creation e o1 Hn Hok). eauto.
    - destruct (step_of_update e o1 Hn Hok) as (c0 & _ & ->). eauto. }
  destruct Hstep as (c1 & Hstep & Hname).
  rewrite Hstep, fold_step_Some, fold_amend_fields in Hfold.
  eexists. split; [exact Hfold|]. simpl.
  now rewrite (overwrite_none _ _ _ (no_later_name e es2 Hlater)).
Qed.

(** X14.  The flag of a record is the last flag assigned: in a history whose
    replay returns normally, take a creation, a deactivation or a
    reactivation that no deactivation or reactivation of the same customer
    follows; the customer's record at the end has flag 0 after a deactivation
    and flag 1 after a creation or a reactivation. *)
Theorem flag_is_last_assigned (es1 es2 : list event.t) (e : event.t) (w w1 : World) :
  forEach CustomerListReadModel_onEvent (es1 ++ e :: es2) w = (Normal tt, w1) ->
  event.__name e = CUSTOMER_CREATED \/
  event.__name e = CUSTOMER_DEACTIVATED \/
  event.__name e = CUSTOMER_REACTIVATED ->
  (forall e', In e' es2 -> event.customerId e' = event.customerId e ->
              event.__name e' <> CUSTOMER_DEACTIVATED /\
              event.__name e' <> CUSTOMER_REACTIVATED) ->
  exists c,
    data w1 !! (CUSTOMERS, event.customerId e) = Some c /\
    customer.active c =
      (if String.eqb (event.__name e) CUSTOMER_DEACTIVATED then 0 else 1)%Z.
Proof.
  intros Hrun Hkind Hlater.
  destruct (accepted_split _ _ _ _ _ _ Hrun) as (o1 & Hok & Hfold).
  assert (Hstep : exists c1, step (key e) o1 e = Some c1 /\
            customer.active c1 =
              (if String.eqb (event.__name e) CUSTOMER_DEACTIVATED then 0 else 1)%Z).
  { destruct Hkind as [Hn|[Hn|Hn]].
    - rewrite (step_of_creation e o1 Hn Hok), Hn. eauto.
    - destruct (step_of_deactivation e o1 Hn Hok) as (c0 & _ & ->). rewrite Hn. eauto.
    - destruct (step_of_reactivation e o1 Hn Hok) as (c0 & _ & ->). rewrite Hn. eauto. }
  destruct Hstep as (c1 & Hstep & Hflag).
  rewrite Hstep, fold_step_Some, fold_amend_fields in Hfold.
  eexists. split; [exact Hfold|]. simpl.
  now rewrite (overwrite_none _ _ _ (no_later_flag e es2 Hlater)).
Qed.

(** X15.  The email and the password of a record are those of its creation:
    in a history whose replay returns normally, the record of a created
    customer carries at the end the email and the password of the creation
    event, whatever follows it. *)
Theorem creation_fixes_contact_fields (es1 es2 : list event.t) (e : event.t)
    (w w1 : World) :
  forEach CustomerListReadModel_onEvent (es1 ++ e :: es2) w = (Normal tt, w1) ->
  event.__name e = CUSTOMER_CREATED ->
  exists c,
    data w1 !! (CUSTOMERS, event.customerId e) = Some c /\
    customer.email c = event.email e /\
    customer.password c = event.password e.
Proof.
  intros Hrun Hn.
  destruct (accepted_split _ _ _ _ _ _ Hrun) as (o1 & Hok & Hfold).
  rewrite (step_of_creation e o1 Hn Hok), fold_step_Some, fold_amend_fields in Hfold.
  eexists. split; [exact Hfold|]. now split.
Qed.

(** ** The further properties at work on sample events *)

Lemma onEvent_touches_one_key_witness :
  (CUSTOMERS, "2") <> (CUSTOMERS, event.customerId updated_1) /\
  data (after (onEvent updated_1) with_two_customers) !! (CUSTOMERS, "2") =
    data with_two_customers !! (CUSTOMERS, "2").
Proof.
  assert (Hk : (CUSTOMERS, "2") <> (CUSTOMERS, event.customerId updated_1))
    by (intros H; vm_compute in H; discriminate H).
  split; [exact Hk|].
  exact (proj1 (onEvent_touches_one_key updated_1 with_two_customers _ Hk)).
Defined.

Lemma records_never_removed_witness :
  is_Some (data with_customer_1 !! (CUSTOMERS, CUSTOMER_1_ID)) /\
  is_Some (data (after (feed_each history_tail) with_customer_1)
             !! (CUSTOMERS, CUSTOMER_1_ID)) /\
  is_Some (data (after (forEach CustomerListReadModel_onEvent history_tail)
                   with_customer_1) !! (CUSTOMERS, CUSTOMER_1_ID)).
Proof.
  assert (Hk : is_Some (data with_customer_1 !! (CUSTOMERS, CUSTOMER_1_ID))).
  { exists (customer.make (Str CUSTOMER_1_NAME) Undefined Undefined 1).
    vm_compute. reflexivity. }
  split; [exact Hk|].
  destruct (records_never_removed history_tail with_customer_1 _ Hk)
    as (Hfed & Hreplayed & _).
  split; assumption.
Defined.

Lemma contact_fields_kept_witness :
  data with_customer_1 !! (CUSTOMERS, CUSTOMER_1_ID) =
    Some (customer.make (Str CUSTOMER_1_NAME) Undefined Undefined 1) /\
  exists c',
    data (after (feed_each [renamed_again_1; deactivated_noisy_1]) with_customer_1)
      !! (CUSTOMERS, CUSTOMER_1_ID) = Some c' /\
    customer.email c' = Undefined /\
    customer.password c' = Undefined.
Proof.
  assert (Hk : data with_customer_1 !! (CUSTOMERS, CUSTOMER_1_ID) =
               Some (customer.make (Str CUSTOMER_1_NAME) Undefined Undefined 1))
    by (vm_compute; reflexivity).
  split; [exact Hk|].
  exact (proj1 (contact_fields_kept [renamed_again_1; deactivated_noisy_1]
                  with_customer_1 _ _ Hk)).
Defined.

Lemma flags_stay_binary_witness :
  binary_flags (data fresh) /\
  binary_flags (data (after (feed_each (history_pre ++ history_tail)) fresh)).
Proof.
  assert (Hfresh : binary_flags (data fresh)).
  { intros k c H. simpl in H. rewrite lookup_empty in H. discriminate H. }
  split; [exact Hfresh|].
  exact (proj1 (flags_stay_binary (history_pre ++ history_tail) fresh Hfresh)).
Defined.

Lemma different_customers_commute_witness :
  event.customerId updated_1 <> event.customerId created_2 /\
  data (after (onEvent created_2) (after (onEvent updated_1) with_customer_1)) =
    data (after (onEvent updated_1) (after (onEvent created_2) with_customer_1)).
Proof.
  assert (Hid : event.customerId updated_1 <> event.customerId created_2)
    by (intros H; vm_compute in H; discriminate H).
  split; [exact Hid|].
  exact (proj1 (different_customers_commute updated_1 created_2 with_customer_1 Hid)).
Defined.

Lemma replay_stops_at_rejection_witness :
  completes (onEvent created_1)
    (after (forEach CustomerListReadModel_onEvent [created_1; updated_1]) fresh) =
    Throw (Error "Customer already exists") /\
  completes (forEach CustomerListReadModel_onEvent
               ([created_1; updated_1] ++ created_1 :: [deactivated_1])) fresh =
    Throw (Error "Customer already exists") /\
  data (after (forEach CustomerListReadModel_onEvent
                 ([created_1; updated_1] ++ created_1 :: [deactivated_1])) fresh) =
    data (after (forEach CustomerListReadModel_onEvent [created_1; updated_1]) fresh).
Proof.
  assert (Hrun : forEach CustomerListReadModel_onEvent [created_1; updated_1] fresh =
            (Normal tt,
             after (forEach CustomerListReadModel_onEvent [created_1; updated_1]) fresh))
    by (apply run_normal; vm_compute; reflexivity).
  assert (Hthrow : completes (onEvent created_1)
            (after (forEach CustomerListReadModel_onEvent [created_1; updated_1]) fresh) =
            Throw (Error "Customer already exists"))
    by (vm_compute; reflexivity).
  split; [exact Hthrow|].
  destruct (replay_stops_at_rejection [created_1; updated_1] [deactivated_1] created_1
              fresh _ _ Hrun Hthrow) as (Hc & Hd & _).
  split; assumption.
Defined.

Lemma later_assignment_wins_witness :
  event.customerId updated_1 = event.customerId renamed_again_1 /\
  data (after (onEvent renamed_again_1) (after (onEvent updated_1) with_customer_1)) =
    data (after (onEvent renamed_again_1) with_customer_1).
Proof.
  split; [reflexivity|].
  apply (later_assignment_wins updated_1 renamed_again_1 with_customer_1);
    [reflexivity | left; split; reflexivity].
Defined.

Lemma rename_and_flag_commute_witness :
  event.customerId updated_1 = event.customerId deactivated_1 /\
  data (after (onEvent deactivated_1) (after (onEvent updated_1) with_customer_1)) =
    data (after (onEvent updated_1) (after (onEvent deactivated_1) with_customer_1)).
Proof.
  split; [reflexivity|].
  apply (rename_and_flag_commute updated_1 deactivated_1 with_customer_1);
    [reflexivity | reflexivity | left; reflexivity].
Defined.

Lemma unread_fields_do_not_matter_witness :
  event.__name deactivated_1 = event.__name deactivated_noisy_1 /\
  event.customerId deactivated_1 = event.customerId deactivated_noisy_1 /\
  onEvent deactivated_1 with_customer_1 = onEvent deactivated_noisy_1 with_customer_1.
Proof.
  split; [reflexivity|]. split; [reflexivity|].
  apply (unread_fields_do_not_matter deactivated_1 deactivated_noisy_1 with_customer_1);
    [reflexivity | reflexivity | right; left; reflexivity].
Defined.

Lemma one_record_per_creation_witness :
  completes (forEach CustomerListReadModel_onEvent
               [created_1; updated_1; deactivated_1; created_2; reactivated_1]) fresh =
    Normal tt /\
  size (data (after (forEach CustomerListReadModel_onEvent
                       [created_1; updated_1; deactivated_1; created_2; reactivated_1])
                fresh)) =
    size (data fresh) +
    creations [created_1; updated_1; deactivated_1; created_2; reactivated_1].
Proof.
  assert (Hok : completes (forEach CustomerListReadModel_onEvent
                  [created_1; updated_1; deactivated_1; created_2; reactivated_1]) fresh =
                Normal tt) by (vm_compute; reflexivity).
  split; [exact Hok|].
  exact (one_record_per_creation _ fresh _ (run_normal _ fresh tt Hok)).
Defined.

Lemma name_is_last_assigned_witness :
  completes (forEach CustomerListReadModel_onEvent
               ([created_1] ++ updated_1 :: [deactivated_1; created_2; reactivated_1]))
    fresh = Normal tt /\
  exists c,
    data (after (forEach CustomerListReadModel_onEvent
                   ([created_1] ++ updated_1 :: [deactivated_1; created_2; reactivated_1]))
            fresh) !! (CUSTOMERS, event.customerId updated_1) = Some c /\
    customer.name c = event.name updated_1.
Proof.
  assert (Hok : completes (forEach CustomerListReadModel_onEvent
                  ([created_1] ++ updated_1 :: [deactivated_1; created_2; reactivated_1]))
                  fresh = Normal tt) by (vm_compute; reflexivity).
  split; [exact Hok|].
  apply (name_is_last_assigned [created_1] [deactivated_1; created_2; reactivated_1]
           updated_1 fresh _ (run_normal _ fresh tt Hok)).
  - right. reflexivity.
  - intros e' [<- | [<- | [<- | []]]] _ H; vm_compute in H; discriminate H.
Defined.

Lemma flag_is_last_assigned_witness :
  completes (forEach CustomerListReadModel_onEvent
               ([created_1; updated_1] ++ deactivated_1 :: [created_2; updated_2]))
    fresh = Normal tt /\
  exists c,
    data (after (forEach CustomerListReadModel_onEvent
                   ([created_1; updated_1] ++ deactivated_1 :: [created_2; updated_2]))
            fresh) !! (CUSTOMERS, event.customerId deactivated_1) = Some c /\
    customer.active c = 0%Z.
Proof.
  assert (Hok : completes (forEach CustomerListReadModel_onEvent
                  ([created_1; updated_1] ++ deactivated_1 :: [created_2; updated_2]))
                  fresh = Normal tt) by (vm_compute; reflexivity).
  split; [exact Hok|].
  apply (flag_is_last_assigned [created_1; updated_1] [created_2; updated_2]
           deactivated_1 fresh _ (run_normal _ fresh tt Hok)).
  - right. left. reflexivity.
  - intros e' [<- | [<- | []]] _; split; intros H; vm_compute in H; discriminate H.
Defined.

Lemma creation_fixes_contact_fields_witness :
  completes (forEach CustomerListReadModel_onEvent
               ([] ++ created_1 :: [renamed_again_1; deactivated_noisy_1]))
    fresh = Normal tt /\
  exists c,
    data (after (forEach CustomerListReadModel_onEvent
                   ([] ++ created_1 :: [renamed_again_1; deactivated_noisy_1]))
            fresh) !! (CUSTOMERS, event.customerId created_1) = Some c /\
    customer.email c = event.email created_1 /\
    customer.password c = event.password created_1.
Proof.
  assert (Hok : completes (forEach CustomerListReadModel_onEvent
                  ([] ++ created_1 :: [renamed_again_1; deactivated_noisy_1]))
                  fresh = Normal tt) by (vm_compute; reflexivity).
  split; [exact Hok|].
  exact (creation_fixes_contact_fields [] [renamed_again_1; deactivated_noisy_1]
           created_1 fresh _ (run_normal _ fresh tt Hok) eq_refl).
Defined.
